(** * c4d-music-particles: audio analysis, beat detection and morph control

    A shallow embedding of the audio analyser ([src/main.js], class
    [AudioAnalyzer]) and of the two particle engines
    ([src/ParticleSystem.js] and the morphing engine of [unnamed/part_000]),
    with the properties of the specification stated over them, followed by
    the getters of the analyser and the first versions of the analyser and
    of the particle system, with further properties read off the code.

    Numbers.  A JavaScript number is modelled by [num]: a finite value is an
    exact rational ([Q]), and [NaN] is kept as a value of its own because the
    code can produce it ([undefined] operands, reads past the end of a typed
    array, [0/0]).  Rounding of doubles and of [Float32Array] stores is not
    modelled, and neither are infinities: overflow needs rounding, and no
    division of the modelled code has a zero divisor with a non-zero
    dividend.  A value the model computes is therefore the value of the code
    up to its rounding, and the statements are chosen not to rest on the
    difference: they are about integers, indices and which cells are
    written, about NaN and zero, about bounds that rounding to the nearest
    respects, and, where two computed values are compared, about values a
    margin apart. *)

From Stdlib Require Import QArith Qround Qminmax Lqa ZArith Lia Bool.
From Stdlib Require Import Strings.Byte.
From stdpp Require Import base list functions.

Local Open Scope Q_scope.

(* ===================================================================== *)
(** * JavaScript numbers *)
(* ===================================================================== *)


Inductive num : Type :=
| Num (q : Q)
| NaN.

Declare Scope num_scope.
Delimit Scope num_scope with num.
Bind Scope num_scope with num.

Definition lift2 (f : Q -> Q -> Q) (x y : num) : num :=
  match x, y with
  | Num a, Num b => Num (f a b)
  | _, _ => NaN
  end.

Definition nadd : num -> num -> num := lift2 Qplus.
Definition nsub : num -> num -> num := lift2 Qminus.
Definition nmul : num -> num -> num := lift2 Qmult.

(** [x / y]; the modelled code divides by zero only in [0 / 0]. *)
Definition ndiv (x y : num) : num :=
  match x, y with
  | Num a, Num b => if Qeq_bool b 0 then NaN else Num (a / b)
  | _, _ => NaN
  end.

Definition nneg (x : num) : num :=
  match x with Num a => Num (- a) | NaN => NaN end.

Definition Qltb (a b : Q) : bool := negb (Qle_bool b a).

(** [x > y], [x < y], [x >= y], [x <= y]: false as soon as one side is NaN. *)
Definition ngtb (x y : num) : bool :=
  match x, y with Num a, Num b => Qltb b a | _, _ => false end.
Definition nltb (x y : num) : bool := ngtb y x.
Definition ngeb (x y : num) : bool :=
  match x, y with Num a, Num b => Qle_bool b a | _, _ => false end.
Definition nleb (x y : num) : bool := ngeb y x.

(** [Math.max] and [Math.min]: NaN as soon as one argument is NaN. *)
Definition nmax : num -> num -> num := lift2 Qmax.
Definition nmin : num -> num -> num := lift2 Qmin.

(** [Math.floor]. *)
Definition nfloor (x : num) : num :=
  match x with Num a => Num (inject_Z (Qfloor a)) | NaN => NaN end.

(** [x || d] on numbers: [d] when [x] is NaN or zero. *)
Definition or_default (x d : num) : num :=
  match x with
  | Num a => if Qeq_bool a 0 then d else x
  | NaN => d
  end.

Definition of_Z (z : Z) : num := Num (inject_Z z).
Definition of_nat (n : nat) : num := of_Z (Z.of_nat n).

(** Equality of numbers as values ([Q] is a setoid). *)
Definition neqb (x y : num) : bool :=
  match x, y with
  | Num a, Num b => Qeq_bool a b
  | _, _ => false
  end.

(** Propositional counterparts, for statements. *)
Definition ngt (x y : num) : Prop :=
  match x, y with Num a, Num b => b < a | _, _ => False end.

Definition is_num (x : num) : Prop :=
  match x with Num _ => True | NaN => False end.

(** [x] is a number of the closed interval [[lo, hi]]. *)
Definition between (lo hi : Q) (x : num) : Prop :=
  match x with Num a => lo <= a <= hi | NaN => False end.

Infix "+" := nadd : num_scope.
Infix "-" := nsub : num_scope.
Infix "*" := nmul : num_scope.
Infix "/" := ndiv : num_scope.
Infix ">?" := ngtb (at level 70, no associativity) : num_scope.
Infix "<?" := nltb (at level 70, no associativity) : num_scope.
Infix ">=?" := ngeb (at level 70, no associativity) : num_scope.
Infix "<=?" := nleb (at level 70, no associativity) : num_scope.

(** A typed-array or array read: [undefined] past the end, which every
    arithmetic use and every [Float32Array] store turns into NaN. *)
Definition read (a : list num) (i : nat) : num :=
  match a !! i with Some v => v | None => NaN end.

(** A typed-array store: ignored past the end.  The cell receives the value
    as it is; the rounding of a [Float32Array] store to single precision is
    not modelled. *)
Definition write (a : list num) (i : nat) (v : num) : list num := <[i := v]> a.

(* ===================================================================== *)
(** * AudioAnalyzer (src/main.js, the class with beat detection) *)
(* ===================================================================== *)

Module AudioAnalyzer.

(** The fields of the object.  [audioElement] and [analyser] record whether
    the field holds an object; [bufferLength] is [null] before the first
    load, which [Math.min(128, null)] reads as 0. *)
Record t : Type := mk {
  audioElement : bool;
  analyser : bool;
  isPlaying : bool;
  bufferLength : nat;
  dataArray : list byte;
  bass : num;
  mid : num;
  treble : num;
  beatThreshold : Q;
  beatDecay : Q;
  beatMinInterval : Q;
  lastBeatTime : Q;
  beatEnergy : num;
  isBeat : bool;
  energyHistory : list num;
  energyHistoryMax : nat;
  smoothing : Q
}.

Definition constructor : t := {|
  audioElement := false;
  analyser := false;
  isPlaying := false;
  bufferLength := 0;
  dataArray := [];
  bass := Num 0;
  mid := Num 0;
  treble := Num 0;
  beatThreshold := 45 # 100;
  beatDecay := 98 # 100;
  beatMinInterval := 200;
  lastBeatTime := 0;
  beatEnergy := Num 0;
  isBeat := false;
  energyHistory := [];
  energyHistoryMax := 60;
  smoothing := 82 # 100
|}.

Definition set_isPlaying (v : bool) (a : t) : t :=
  mk (audioElement a) (analyser a) v (bufferLength a) (dataArray a)
     (bass a) (mid a) (treble a) (beatThreshold a) (beatDecay a)
     (beatMinInterval a) (lastBeatTime a) (beatEnergy a) (isBeat a)
     (energyHistory a) (energyHistoryMax a) (smoothing a).

Definition set_dataArray (v : list byte) (a : t) : t :=
  mk (audioElement a) (analyser a) (isPlaying a) (bufferLength a) v
     (bass a) (mid a) (treble a) (beatThreshold a) (beatDecay a)
     (beatMinInterval a) (lastBeatTime a) (beatEnergy a) (isBeat a)
     (energyHistory a) (energyHistoryMax a) (smoothing a).

Definition set_bands (b m tr : num) (a : t) : t :=
  mk (audioElement a) (analyser a) (isPlaying a) (bufferLength a) (dataArray a)
     b m tr (beatThreshold a) (beatDecay a)
     (beatMinInterval a) (lastBeatTime a) (beatEnergy a) (isBeat a)
     (energyHistory a) (energyHistoryMax a) (smoothing a).

Definition set_lastBeatTime (v : Q) (a : t) : t :=
  mk (audioElement a) (analyser a) (isPlaying a) (bufferLength a) (dataArray a)
     (bass a) (mid a) (treble a) (beatThreshold a) (beatDecay a)
     (beatMinInterval a) v (beatEnergy a) (isBeat a)
     (energyHistory a) (energyHistoryMax a) (smoothing a).

Definition set_beatEnergy (v : num) (a : t) : t :=
  mk (audioElement a) (analyser a) (isPlaying a) (bufferLength a) (dataArray a)
     (bass a) (mid a) (treble a) (beatThreshold a) (beatDecay a)
     (beatMinInterval a) (lastBeatTime a) v (isBeat a)
     (energyHistory a) (energyHistoryMax a) (smoothing a).

Definition set_isBeat (v : bool) (a : t) : t :=
  mk (audioElement a) (analyser a) (isPlaying a) (bufferLength a) (dataArray a)
     (bass a) (mid a) (treble a) (beatThreshold a) (beatDecay a)
     (beatMinInterval a) (lastBeatTime a) (beatEnergy a) v
     (energyHistory a) (energyHistoryMax a) (smoothing a).

Definition set_energyHistory (v : list num) (a : t) : t :=
  mk (audioElement a) (analyser a) (isPlaying a) (bufferLength a) (dataArray a)
     (bass a) (mid a) (treble a) (beatThreshold a) (beatDecay a)
     (beatMinInterval a) (lastBeatTime a) (beatEnergy a) (isBeat a)
     v (energyHistoryMax a) (smoothing a).

(** [loadAudio], when the file loads: the audio element is replaced, and the
    analyser (fftSize 512, hence 256 bins) with its byte buffer is created
    on the first load only. *)
Definition loadAudio (a : t) : t :=
  if analyser a then
    mk true true (isPlaying a) (bufferLength a) (dataArray a)
       (bass a) (mid a) (treble a) (beatThreshold a) (beatDecay a)
       (beatMinInterval a) (lastBeatTime a) (beatEnergy a) (isBeat a)
       (energyHistory a) (energyHistoryMax a) (smoothing a)
  else
    mk true true (isPlaying a) 256 (repeat x00 256)
       (bass a) (mid a) (treble a) (beatThreshold a) (beatDecay a)
       (beatMinInterval a) (lastBeatTime a) (beatEnergy a) (isBeat a)
       (energyHistory a) (energyHistoryMax a) (smoothing a).

Definition play (a : t) : t :=
  if negb (audioElement a) then a else set_isPlaying true a.

Definition pause (a : t) : t :=
  if negb (audioElement a) then a else set_isPlaying false a.

(** [analyser.getByteFrequencyData(dataArray)]: the analyser's current bytes
    [freq] are copied into the buffer, whose length does not change; bytes
    in excess are dropped, positions not covered keep their value. *)
Definition getByteFrequencyData (freq dst : list byte) : list byte :=
  take (length dst) freq ++ drop (length freq) dst.

Definition byteValue (b : byte) : num := of_Z (Z.of_N (Byte.to_N b)).

(** [this.dataArray[i]] used as a number. *)
Definition readByte (d : list byte) (i : nat) : num :=
  match d !! i with Some b => byteValue b | None => NaN end.

(** The bins visited by the loop [for (i = start; i < end; i++)]. *)
Definition bandBins (start end_ : nat) : list nat := seq start (end_ - start).

(** [_bandAverage(start, end)]: mean of a range of bins, normalised to 0..1. *)
Definition _bandAverage (d : list byte) (start end_ : nat) : num :=
  let sum := fold_left (fun sum i => (sum + readByte d i)%num) (bandBins start end_) (Num 0) in
  (sum / of_Z (Z.of_nat end_ - Z.of_nat start) / Num 255)%num.

(** The band boundaries of [update]. *)
Definition bassEnd : nat := 7.
Definition midEnd : nat := 41.
Definition trebleEnd (bufferLength : nat) : nat := Nat.min 128 bufferLength.

Definition bassBins : list nat := bandBins 0 bassEnd.
Definition midBins : list nat := bandBins bassEnd midEnd.
Definition trebleBins (bufferLength : nat) : list nat :=
  bandBins midEnd (trebleEnd bufferLength).

(** The history after [push] and, past the capacity, [shift]. *)
Definition pushHistory (max : nat) (h : list num) (energy : num) : list num :=
  let h := h ++ [energy] in
  if (max <? length h)%nat then tail h else h.

(** [reduce((a, b) => a + b, 0) / length], summed from the left and exact
    (the code rounds each sum and the quotient to a double). *)
Definition average (h : list num) : num :=
  (fold_left nadd h (Num 0) / of_nat (length h))%num.

Definition adaptiveThreshold (beatThreshold : Q) (h : list num) : num :=
  nmax (Num beatThreshold) (average h * Num (14 # 10))%num.

(** [_detectBeat(energy)], with [now] the value of [performance.now()]. *)
Definition _detectBeat (energy : num) (now : Q) (a : t) : t :=
  let a := set_energyHistory
             (pushHistory (energyHistoryMax a) (energyHistory a) energy) a in
  let threshold := adaptiveThreshold (beatThreshold a) (energyHistory a) in
  let a :=
    if (energy >? threshold)%num
       && (energy >? beatEnergy a)%num
       && Qltb (beatMinInterval a) (now - lastBeatTime a)
    then set_lastBeatTime now (set_isBeat true a)
    else set_isBeat false a in
  set_beatEnergy (energy * Num (beatDecay a))%num a.

(** One step of exponential smoothing. *)
Definition smooth (s : Q) (prev raw : num) : num :=
  (prev * Num s + raw * (Num 1 - Num s))%num.

(** [update()], with [freq] the analyser's bytes for this frame and [now]
    the clock. *)
Definition update (freq : list byte) (now : Q) (a : t) : t :=
  if negb (analyser a) || negb (isPlaying a) then set_isBeat false a
  else
    let a := set_dataArray (getByteFrequencyData freq (dataArray a)) a in
    let rawBass := _bandAverage (dataArray a) 0 bassEnd in
    let rawMid := _bandAverage (dataArray a) bassEnd midEnd in
    let rawTreble := _bandAverage (dataArray a) midEnd (trebleEnd (bufferLength a)) in
    let s := smoothing a in
    let a := set_bands (smooth s (bass a) rawBass)
                       (smooth s (mid a) rawMid)
                       (smooth s (treble a) rawTreble) a in
    _detectBeat rawBass now a.

(** What happens to the analyser between and at frames. *)
Inductive event : Type :=
| LoadAudio
| Play
| Pause
| Update (freq : list byte) (now : Q).

Definition step (a : t) (e : event) : t :=
  match e with
  | LoadAudio => loadAudio a
  | Play => play a
  | Pause => pause a
  | Update freq now => update freq now a
  end.

Definition run (a : t) (evs : list event) : t := fold_left step evs a.

(** The clock values of the frames on which the beat flag came out true. *)
Fixpoint beatTimes (a : t) (evs : list event) : list Q :=
  match evs with
  | [] => []
  | e :: evs' =>
      let a' := step a e in
      match e with
      | Update _ now =>
          if isBeat a' then now :: beatTimes a' evs' else beatTimes a' evs'
      | _ => beatTimes a' evs'
      end
  end.

(** The tracker values after each frame. *)
Fixpoint beatEnergies (a : t) (evs : list event) : list num :=
  match evs with
  | [] => []
  | e :: evs' => let a' := step a e in beatEnergy a' :: beatEnergies a' evs'
  end.

End AudioAnalyzer.

(* ===================================================================== *)
(** * ParticleSystem (src/ParticleSystem.js, the plexus engine) *)
(* ===================================================================== *)

Module ParticleSystem.

(** Functions of the libraries the file imports and of [Math]:
    [createNoise3D()] of simplex-noise (seeded at random when the module is
    loaded), [Math.sqrt] and [Math.sin]. *)
Record External : Type := {
  noise3D : num -> num -> num -> num;
  Math_sqrt : num -> num;
  Math_sin : num -> num
}.

Record Vector3 : Type := vec3 { vx : num; vy : num; vz : num }.

(** What [update] reads besides the object: its argument, the clock and the
    draws of [Math.random()] (at line 438, at line 453, and in the loop for
    particle [i]). *)
Record AudioData : Type := {
  ad_bass : num;
  ad_mid : num;
  ad_treble : num;
  ad_isBeat : bool;
  ad_beat : bool
}.

Record Env : Type := {
  performance_now : num;
  random438 : num;
  random453 : num;
  randomLoop : nat -> num
}.

(** The fields [update] and the morph controls use.  [params.morphSpeed] is
    absent from the object literal of the constructor: it is [undefined],
    hence NaN in arithmetic, until something assigns it.  [positions] is
    also the array of the [position] attribute of the geometry. *)
Record t : Type := mk {
  params_count : nat;
  params_autoMorph : bool;
  params_morphSpeed : num;
  mouse_x : num;
  mouse_y : num;
  positions : list num;
  scatterPositions : list num;
  modelPositions : option (list num);
  morphTarget : num;
  morphSpeed : num;
  autoMorphOnBeat : bool;
  morphDirection : Z;
  morphPauseFrames : Z;
  uTime : num;
  uAudioScale : num
}.

Definition set_morphTarget (v : num) (p : t) : t :=
  mk (params_count p) (params_autoMorph p) (params_morphSpeed p)
     (mouse_x p) (mouse_y p) (positions p) (scatterPositions p)
     (modelPositions p) v (morphSpeed p) (autoMorphOnBeat p)
     (morphDirection p) (morphPauseFrames p) (uTime p) (uAudioScale p).

Definition set_morphDirection (v : Z) (p : t) : t :=
  mk (params_count p) (params_autoMorph p) (params_morphSpeed p)
     (mouse_x p) (mouse_y p) (positions p) (scatterPositions p)
     (modelPositions p) (morphTarget p) (morphSpeed p) (autoMorphOnBeat p)
     v (morphPauseFrames p) (uTime p) (uAudioScale p).

Definition set_morphPauseFrames (v : Z) (p : t) : t :=
  mk (params_count p) (params_autoMorph p) (params_morphSpeed p)
     (mouse_x p) (mouse_y p) (positions p) (scatterPositions p)
     (modelPositions p) (morphTarget p) (morphSpeed p) (autoMorphOnBeat p)
     (morphDirection p) v (uTime p) (uAudioScale p).

Definition set_morphSpeed (v : num) (p : t) : t :=
  mk (params_count p) (params_autoMorph p) (params_morphSpeed p)
     (mouse_x p) (mouse_y p) (positions p) (scatterPositions p)
     (modelPositions p) (morphTarget p) v (autoMorphOnBeat p)
     (morphDirection p) (morphPauseFrames p) (uTime p) (uAudioScale p).

Definition set_autoMorphOnBeat (v : bool) (p : t) : t :=
  mk (params_count p) (params_autoMorph p) (params_morphSpeed p)
     (mouse_x p) (mouse_y p) (positions p) (scatterPositions p)
     (modelPositions p) (morphTarget p) (morphSpeed p) v
     (morphDirection p) (morphPauseFrames p) (uTime p) (uAudioScale p).

Definition set_params_morphSpeed (v : num) (p : t) : t :=
  mk (params_count p) (params_autoMorph p) v
     (mouse_x p) (mouse_y p) (positions p) (scatterPositions p)
     (modelPositions p) (morphTarget p) (morphSpeed p) (autoMorphOnBeat p)
     (morphDirection p) (morphPauseFrames p) (uTime p) (uAudioScale p).

Definition set_params_autoMorph (v : bool) (p : t) : t :=
  mk (params_count p) v (params_morphSpeed p)
     (mouse_x p) (mouse_y p) (positions p) (scatterPositions p)
     (modelPositions p) (morphTarget p) (morphSpeed p) (autoMorphOnBeat p)
     (morphDirection p) (morphPauseFrames p) (uTime p) (uAudioScale p).

Definition set_positions (v : list num) (p : t) : t :=
  mk (params_count p) (params_autoMorph p) (params_morphSpeed p)
     (mouse_x p) (mouse_y p) v (scatterPositions p)
     (modelPositions p) (morphTarget p) (morphSpeed p) (autoMorphOnBeat p)
     (morphDirection p) (morphPauseFrames p) (uTime p) (uAudioScale p).

Definition set_uniforms (time audioScale : num) (p : t) : t :=
  mk (params_count p) (params_autoMorph p) (params_morphSpeed p)
     (mouse_x p) (mouse_y p) (positions p) (scatterPositions p)
     (modelPositions p) (morphTarget p) (morphSpeed p) (autoMorphOnBeat p)
     (morphDirection p) (morphPauseFrames p) time audioScale.

(** The class body defines [toggleMorph], [setMorphSpeed] and
    [setAutoMorphOnBeat] twice; a later method definition of a class body
    replaces an earlier one of the same name, so the methods of the object
    are the ones of lines 401 to 412.  The replaced definitions of lines
    348 to 362 are kept under the suffix [_348], [_356] and [_360]. *)
Definition toggleMorph_348 (p : t) : t :=
  if (morphTarget p >=? Num (1 # 2))%num
  then set_morphDirection (-1) p
  else set_morphDirection 1 p.

Definition setMorphSpeed_356 (speed : num) (p : t) : t :=
  set_params_morphSpeed speed p.

Definition setAutoMorphOnBeat_360 (enabled : bool) (p : t) : t :=
  set_params_autoMorph enabled p.

Definition setMorphSpeed (s : num) (p : t) : t := set_morphSpeed s p.

Definition toggleMorph (p : t) : t :=
  set_morphDirection (morphDirection p * -1) p.

Definition setAutoMorphOnBeat (b : bool) (p : t) : t := set_autoMorphOnBeat b p.

Definition getMorphState (p : t) : num := morphTarget p.

(** [THREE.MathUtils.lerp] and [THREE.MathUtils.clamp]. *)
Definition lerp (x y w : num) : num := ((Num 1 - w) * x + w * y)%num.
Definition clamp (value lo hi : num) : num := nmax lo (nmin hi value).

Section WithExternal.

Variable ext : External.

(** [THREE.Vector3.prototype.normalize]: [divideScalar(length() || 1)]. *)
Definition Vector3_length (v : Vector3) : num :=
  Math_sqrt ext (vx v * vx v + vy v * vy v + vz v * vz v)%num.

Definition Vector3_normalize (v : Vector3) : Vector3 :=
  let k := (Num 1 / or_default (Vector3_length v) (Num 1))%num in
  vec3 (vx v * k) (vy v * k) (vz v * k).

Definition curlNoise (p : Vector3) : Vector3 :=
  let e := Num (1 # 10) in
  let p_x0 := noise3D ext (vx p - e) (vy p) (vz p) in
  let p_x1 := noise3D ext (vx p + e) (vy p) (vz p) in
  let p_y0 := noise3D ext (vx p) (vy p - e) (vz p) in
  let p_y1 := noise3D ext (vx p) (vy p + e) (vz p) in
  let p_z0 := noise3D ext (vx p) (vy p) (vz p - e) in
  let p_z1 := noise3D ext (vx p) (vy p) (vz p + e) in
  let x := (p_y1 - p_y0 - (p_z1 - p_z0))%num in
  let y := (p_z1 - p_z0 - (p_x1 - p_x0))%num in
  let z := (p_x1 - p_x0 - (p_y1 - p_y0))%num in
  Vector3_normalize (vec3 x y z).

(** The morph logic of [update], lines 421 to 466. *)
Definition morphBlock1 (p : t) : t :=
  if (morphDirection p =? 0)%Z then p
  else
    let p := set_morphTarget
               (morphTarget p + of_Z (morphDirection p) * params_morphSpeed p) p in
    if (morphTarget p >=? Num 1)%num
    then set_morphDirection 0 (set_morphTarget (Num 1) p)
    else if (morphTarget p <=? Num 0)%num
    then set_morphDirection 0 (set_morphTarget (Num 0) p)
    else p.

Definition autoMorph (isBeat : bool) (r : num) (p : t) : t :=
  if params_autoMorph p && isBeat && (morphTarget p <? Num (1 # 10))%num
  then toggleMorph p
  else if params_autoMorph p && (morphTarget p >? Num (9 # 10))%num
          && (r <? Num (1 # 100))%num
  then toggleMorph p
  else p.

Definition beatToggle (beat : bool) (r : num) (p : t) : t :=
  let p :=
    if autoMorphOnBeat p && beat && (morphPauseFrames p <=? 0)%Z
    then
      if (r >? Num (7 # 10))%num
      then set_morphPauseFrames 60 (set_morphDirection (morphDirection p * -1) p)
      else p
    else p in
  if (morphPauseFrames p >? 0)%Z
  then set_morphPauseFrames (morphPauseFrames p - 1) p
  else p.

Definition morphFactorUpdate (p : t) : t :=
  match modelPositions p with
  | Some _ =>
      let p := set_morphTarget
                 (morphTarget p + of_Z (morphDirection p) * morphSpeed p) p in
      set_morphTarget (clamp (morphTarget p) (Num 0) (Num 1)) p
  | None => set_morphTarget (Num 0) p
  end.

(** One turn of the particle loop, lines 482 to 572. *)
Definition particleStep (time treble : num) (rnd : nat -> num) (p : t) (i : nat) : t :=
  let i3 := (i * 3)%nat in
  let pos := positions p in
  let sc := scatterPositions p in
  let turbulence := (Num (2 # 100) + treble * Num (8 # 100))%num in
  let target k :=
    match modelPositions p with
    | Some m => lerp (read sc (i3 + k)) (read m (i3 + k)) (morphTarget p)
    | None => read sc (i3 + k)
    end in
  let scale := Num (8 # 100) in
  let speed := Num (15 # 100) in
  let timeOffset := (time * speed)%num in
  let curl := curlNoise (vec3 (read pos i3 * scale)
                              (read pos (i3 + 1) * scale)
                              (read pos (i3 + 2) * scale + timeOffset)) in
  let fluidFactor := (Num (4 # 10) * turbulence)%num in
  let dx := (read pos i3 - mouse_x p)%num in
  let dy := (read pos (i3 + 1) - mouse_y p)%num in
  let distSq := (dx * dx + dy * dy)%num in
  let '(mouseForceX, mouseForceY, mouseForceZ) :=
    if (distSq <? Num 16)%num
    then
      let dist := Math_sqrt ext distSq in
      let force := ((Num 4 - dist) * Num (1 # 10))%num in
      (dx / dist * force, dy / dist * force, (rnd i - Num (1 # 2)) * force)%num
    else (Num 0, Num 0, Num 0) in
  let targetWeight := Num (5 # 100) in
  let breathing := (Math_sin ext (time * Num (8 # 10)) * Num (5 # 100) + Num 1)%num in
  let pos := write pos i3
               (lerp (read pos i3)
                     (target 0%nat * breathing + vx curl * Num 5 * fluidFactor
                      + mouseForceX * Num 10) targetWeight) in
  let pos := write pos (i3 + 1)
               (lerp (read pos (i3 + 1))
                     (target 1%nat * breathing + vy curl * Num 5 * fluidFactor
                      + mouseForceY * Num 10) targetWeight) in
  let pos := write pos (i3 + 2)
               (lerp (read pos (i3 + 2))
                     (target 2%nat * breathing + vz curl * Num 5 * fluidFactor
                      + mouseForceZ * Num 10) targetWeight) in
  set_positions pos p.

(** [update(audioData)], lines 415 to 466: everything before the particle
    loop. *)
Definition updateControls (audioData : AudioData) (env : Env) (p : t) : t :=
  let time := (performance_now env * Num (1 # 1000))%num in
  let bass := or_default (ad_bass audioData) (Num 0) in
  let p := set_uniforms time (uAudioScale p) p in
  let p := morphBlock1 p in
  let p := autoMorph (ad_isBeat audioData) (random438 env) p in
  let p := set_uniforms (uTime p) bass p in
  let p := beatToggle (ad_beat audioData) (random453 env) p in
  morphFactorUpdate p.

(** [update(audioData)]. *)
Definition update (audioData : AudioData) (env : Env) (p : t) : t :=
  let time := (performance_now env * Num (1 # 1000))%num in
  let treble := or_default (ad_treble audioData) (Num 0) in
  let p := updateControls audioData env p in
  fold_left (particleStep time treble (randomLoop env)) (seq 0 (params_count p)) p.

End WithExternal.

(** [createParticles]: fresh position buffers of [count * 3] entries, both
    filled with [(Math.random() - 0.5) * 15]; [rnd k] is the draw for entry
    [k].  (The colour and size buffers it also fills are not read by
    [update].) *)
Definition createParticles (rnd : nat -> num) (p : t) : t :=
  let vals := map (fun k => (rnd k - Num (1 # 2)) * Num 15)%num
                  (seq 0 (params_count p * 3)) in
  mk (params_count p) (params_autoMorph p) (params_morphSpeed p)
     (mouse_x p) (mouse_y p) vals vals
     (modelPositions p) (morphTarget p) (morphSpeed p) (autoMorphOnBeat p)
     (morphDirection p) (morphPauseFrames p) (Num 0) (Num 0).

Definition constructor (rnd : nat -> num) : t :=
  createParticles rnd {|
    params_count := 100 * 1000;
    params_autoMorph := false;
    params_morphSpeed := NaN;
    mouse_x := Num 9999;
    mouse_y := Num 9999;
    positions := [];
    scatterPositions := [];
    modelPositions := None;
    morphTarget := Num 0;
    morphSpeed := Num (2 # 100);
    autoMorphOnBeat := true;
    morphDirection := -1;
    morphPauseFrames := 0;
    uTime := Num 0;
    uAudioScale := Num 0
  |}.

Definition updateParticleCount (c : nat) (rnd : nat -> num) (p : t) : t :=
  if (c =? params_count p)%nat then p
  else
    createParticles rnd
      (mk c (params_autoMorph p) (params_morphSpeed p)
          (mouse_x p) (mouse_y p) (positions p) (scatterPositions p)
          (modelPositions p) (morphTarget p) (morphSpeed p) (autoMorphOnBeat p)
          (morphDirection p) (morphPauseFrames p) (uTime p) (uAudioScale p)).

End ParticleSystem.

(* ===================================================================== *)
(** * ParticleSystem of unnamed/part_000 (the engine with per-particle
      morph factors, lines 474 to 1165) *)
(* ===================================================================== *)

Module Part000.

(** ** Inline noise *)

Definition p0 : list Z := [
  151; 160; 137; 91; 90; 15; 131; 13; 201; 95; 96; 53; 194; 233; 7; 225; 140;
  36; 103; 30; 69; 142; 8; 99; 37; 240; 21; 10; 23; 190; 6; 148; 247; 120;
  234; 75; 0; 26; 197; 62; 94; 252; 219; 203; 117; 35; 11; 32; 57; 177; 33;
  88; 237; 149; 56; 87; 174; 20; 125; 136; 171; 168; 68; 175; 74; 165; 71;
  134; 139; 48; 27; 166; 77; 146; 158; 231; 83; 111; 229; 122; 60; 211; 133;
  230; 220; 105; 92; 41; 55; 46; 245; 40; 244; 102; 143; 54; 65; 25; 63; 161;
  1; 216; 80; 73; 209; 76; 132; 187; 208; 89; 18; 169; 200; 196; 135; 130;
  116; 188; 159; 86; 164; 100; 109; 198; 173; 186; 3; 64; 52; 217; 226; 250;
  124; 123; 5; 202; 38; 147; 118; 126; 255; 82; 85; 212; 207; 206; 59; 227;
  47; 16; 58; 17; 182; 189; 28; 42; 223; 183; 170; 213; 119; 248; 152; 2; 44;
  154; 163; 70; 221; 153; 101; 155; 167; 43; 172; 9; 129; 22; 39; 253; 19; 98;
  108; 110; 79; 113; 224; 232; 178; 185; 112; 104; 218; 246; 97; 228; 251; 34;
  242; 193; 238; 210; 144; 12; 191; 179; 162; 241; 81; 51; 145; 235; 249; 14;
  239; 107; 49; 192; 214; 31; 181; 199; 106; 157; 184; 84; 204; 176; 115; 121;
  50; 45; 127; 4; 150; 254; 138; 236; 205; 93; 222; 114; 67; 29; 24; 72; 243;
  141; 128; 195; 78; 66; 215; 61; 156; 180
]%Z.

(** [_p] holds [p0] twice; [_perm[i] = _p[i] & 255]. *)
Definition _p : list Z := p0 ++ p0.
Definition _perm : list Z := map (fun v => Z.land v 255) _p.

(** [_perm[i]]; every index the noise uses is below 512. *)
Definition perm (i : Z) : Z := nth (Z.to_nat i) _perm 0%Z.

Definition _fade (t : num) : num :=
  (t * t * t * (t * (t * Num 6 - Num 15) + Num 10))%num.

Definition _lerp (a b t : num) : num := (a + t * (b - a))%num.

Definition _grad3 (hash : Z) (x y z : num) : num :=
  let h := Z.land hash 15 in
  let u := if (h <? 8)%Z then x else y in
  let v := if (h <? 4)%Z then y
           else if (h =? 12)%Z || (h =? 14)%Z then x else z in
  ((if (Z.land h 1 =? 0)%Z then u else nneg u)
   + (if (Z.land h 2 =? 0)%Z then v else nneg v))%num.

(** [Math.floor(x) & 255]; [NaN & 255] is 0. *)
Definition floorAnd255 (x : num) : Z :=
  match x with Num a => Z.land (Qfloor a) 255 | NaN => 0%Z end.

Definition noise3D (x y z : num) : num :=
  let X := floorAnd255 x in
  let Y := floorAnd255 y in
  let Z_ := floorAnd255 z in
  let x := (x - nfloor x)%num in
  let y := (y - nfloor y)%num in
  let z := (z - nfloor z)%num in
  let u := _fade x in
  let v := _fade y in
  let w := _fade z in
  let A := (perm X + Y)%Z in
  let AA := (perm A + Z_)%Z in
  let AB := (perm (A + 1) + Z_)%Z in
  let B := (perm (X + 1) + Y)%Z in
  let BA := (perm B + Z_)%Z in
  let BB := (perm (B + 1) + Z_)%Z in
  let one := Num 1 in
  _lerp
    (_lerp
       (_lerp (_grad3 (perm AA) x y z) (_grad3 (perm BA) (x - one) y z) u)
       (_lerp (_grad3 (perm AB) x (y - one) z)
              (_grad3 (perm BB) (x - one) (y - one) z) u)
       v)
    (_lerp
       (_lerp (_grad3 (perm (AA + 1)) x y (z - one))
              (_grad3 (perm (BA + 1)) (x - one) y (z - one)) u)
       (_lerp (_grad3 (perm (AB + 1)) x (y - one) (z - one))
              (_grad3 (perm (BB + 1)) (x - one) (y - one) (z - one)) u)
       v)
    w.

(** ** The object *)

(** The typed arrays [createParticles] allocates, one name per allocation;
    a later [createParticles] replaces all of them. *)
Inductive buf : Type :=
| positions
| scatterPositions
| targetPositions
| colors
| originalColors
| sizes
| morphFactors
| velocities.

#[global] Instance buf_eq_dec : EqDecision buf.
Proof. solve_decision. Defined.

(** The attributes of the geometry and the array each one wraps, as
    [createParticles] passes them to [setAttribute]: the attribute named
    [aOrigColor] wraps [this.colors], not [this.originalColors]. *)
Inductive attribute : Type :=
| position
| aTargetPosition
| aOrigColor
| aSize
| aMorphFactor.

Definition attribute_array (a : attribute) : buf :=
  match a with
  | position => positions
  | aTargetPosition => targetPositions
  | aOrigColor => colors
  | aSize => sizes
  | aMorphFactor => morphFactors
  end.

Record t : Type := mk {
  particles : bool;
  settings_particleCount : nat;
  heap : buf -> list num;
  morphTarget : num;
  morphSpeed : num;
  autoMorphOnBeat : bool;
  morphDirection : Z;
  morphPauseFrames : Z;
  model : bool;
  modelVertices : list num;
  time : num;
  uAudioScale : num;
  uTime : num;
  rotation_y : num
}.

Definition set_heap (h : buf -> list num) (s : t) : t :=
  mk (particles s) (settings_particleCount s) h (morphTarget s) (morphSpeed s)
     (autoMorphOnBeat s) (morphDirection s) (morphPauseFrames s) (model s)
     (modelVertices s) (time s) (uAudioScale s) (uTime s) (rotation_y s).

Definition set_morphSpeed (v : num) (s : t) : t :=
  mk (particles s) (settings_particleCount s) (heap s) (morphTarget s) v
     (autoMorphOnBeat s) (morphDirection s) (morphPauseFrames s) (model s)
     (modelVertices s) (time s) (uAudioScale s) (uTime s) (rotation_y s).

Definition set_autoMorphOnBeat (v : bool) (s : t) : t :=
  mk (particles s) (settings_particleCount s) (heap s) (morphTarget s)
     (morphSpeed s) v (morphDirection s) (morphPauseFrames s) (model s)
     (modelVertices s) (time s) (uAudioScale s) (uTime s) (rotation_y s).

Definition set_morphDirection (v : Z) (s : t) : t :=
  mk (particles s) (settings_particleCount s) (heap s) (morphTarget s)
     (morphSpeed s) (autoMorphOnBeat s) v (morphPauseFrames s) (model s)
     (modelVertices s) (time s) (uAudioScale s) (uTime s) (rotation_y s).

Definition set_morphPauseFrames (v : Z) (s : t) : t :=
  mk (particles s) (settings_particleCount s) (heap s) (morphTarget s)
     (morphSpeed s) (autoMorphOnBeat s) (morphDirection s) v (model s)
     (modelVertices s) (time s) (uAudioScale s) (uTime s) (rotation_y s).

Definition set_model (vertices : list num) (s : t) : t :=
  mk (particles s) (settings_particleCount s) (heap s) (morphTarget s)
     (morphSpeed s) (autoMorphOnBeat s) (morphDirection s)
     (morphPauseFrames s) true vertices (time s) (uAudioScale s) (uTime s)
     (rotation_y s).

Definition set_time (v : num) (s : t) : t :=
  mk (particles s) (settings_particleCount s) (heap s) (morphTarget s)
     (morphSpeed s) (autoMorphOnBeat s) (morphDirection s)
     (morphPauseFrames s) (model s) (modelVertices s) v (uAudioScale s)
     (uTime s) (rotation_y s).

Definition set_uniforms (audioScale time_ : num) (s : t) : t :=
  mk (particles s) (settings_particleCount s) (heap s) (morphTarget s)
     (morphSpeed s) (autoMorphOnBeat s) (morphDirection s)
     (morphPauseFrames s) (model s) (modelVertices s) (time s) audioScale
     time_ (rotation_y s).

Definition set_rotation_y (v : num) (s : t) : t :=
  mk (particles s) (settings_particleCount s) (heap s) (morphTarget s)
     (morphSpeed s) (autoMorphOnBeat s) (morphDirection s)
     (morphPauseFrames s) (model s) (modelVertices s) (time s) (uAudioScale s)
     (uTime s) v.

(** [a[i]] and [a[i] = v] on the array named [b]. *)
Definition get (b : buf) (i : nat) (s : t) : num := read (heap s b) i.

Definition put (b : buf) (i : nat) (v : num) (s : t) : t :=
  set_heap (<[b := write (heap s b) i v]> (heap s)) s.

(** [a[x]] for a computed index [x]: [undefined] unless [x] is an index. *)
Definition readAt (a : list num) (x : num) : num :=
  match x with
  | Num q =>
      if Qeq_bool q (inject_Z (Qfloor q)) && (0 <=? Qfloor q)%Z
      then read a (Z.to_nat (Qfloor q))
      else NaN
  | NaN => NaN
  end.

(** ** Creation and reconfiguration *)

(** The draws of [createParticles] ([Math.random()] for entry [k] of the
    position and velocity buffers and for particle [i]'s size) and the value
    [_applyColors] leaves in entry [k] of [this.colors] (computed by
    [THREE.Color], in whichever colour mode is active). *)
Record Creation : Type := {
  rndPosition : nat -> num;
  appliedColor : nat -> num;
  rndSize : nat -> num;
  rndVelocity : nat -> num
}.

Definition createParticles (c : Creation) (s : t) : t :=
  let count := settings_particleCount s in
  let pos := map (fun k => (rndPosition c k - Num (1 # 2)) * Num 10)%num
                 (seq 0 (count * 3)) in
  let cols := map (appliedColor c) (seq 0 (count * 3)) in
  let h (b : buf) : list num :=
    match b with
    | positions => pos
    | scatterPositions => pos
    | targetPositions => pos
    | colors => cols
    | originalColors => cols
    | sizes => map (fun i => Num (7 # 10) + rndSize c i * Num (6 # 10))%num
                   (seq 0 count)
    | morphFactors => repeat (Num 0) count
    | velocities => map (fun k => (rndVelocity c k - Num (1 # 2)) * Num (8 # 1000))%num
                        (seq 0 (count * 3))
    end in
  mk true count h (morphTarget s) (morphSpeed s) (autoMorphOnBeat s)
     (morphDirection s) (morphPauseFrames s) (model s) (modelVertices s)
     (time s) (Num 1) (Num 0) (Num 0).

Definition constructor (particleCount : nat) (c : Creation) : t :=
  createParticles c {|
    particles := false;
    settings_particleCount := particleCount;
    heap := fun _ => [];
    morphTarget := Num 0;
    morphSpeed := Num (2 # 100);
    autoMorphOnBeat := true;
    morphDirection := -1;
    morphPauseFrames := 0;
    model := false;
    modelVertices := [];
    time := Num 0;
    uAudioScale := Num 1;
    uTime := Num 0;
    rotation_y := Num 0
  |}.

(** The draws of [_buildTargetPositions] for particle [i]: the one that
    picks the vertex and the three of the jitter. *)
Record Sampling : Type := {
  rndVertex : nat -> num;
  rndJitter : nat -> nat -> num
}.

Definition _buildTargetPositions (d : Sampling) (s : t) : t :=
  let count := settings_particleCount s in
  let verts := modelVertices s in
  if (length verts =? 0)%nat then s
  else
    let vertCount := (of_nat (length verts) / Num 3)%num in
    fold_left
      (fun s i =>
         let i3 := (i * 3)%nat in
         let vi := nfloor (rndVertex d i * vertCount) in
         let jitter := Num (3 # 100) in
         let coord k :=
           (readAt verts (vi * Num 3 + of_nat k)
            + (rndJitter d i k - Num (1 # 2)) * jitter)%num in
         let s := put targetPositions i3 (coord 0%nat) s in
         let s := put targetPositions (i3 + 1) (coord 1%nat) s in
         put targetPositions (i3 + 2) (coord 2%nat) s)
      (seq 0 count) s.

(** [setModel(model, settings)]: [vertices] are the world positions the
    traversal of the model collects; [recolor] is [Some c] when
    [settings.colorMode] is ["model"], with [c k] the value [_applyColors]
    then leaves in entry [k] of [this.colors]. *)
Definition applyColors (c : nat -> num) (s : t) : t :=
  let cols := map c (seq 0 (settings_particleCount s * 3)) in
  let cols' := take (length (heap s colors)) cols
               ++ drop (length cols) (heap s colors) in
  let s := set_heap (<[colors := cols']> (heap s)) s in
  (* this.originalColors.set(this.colors); both arrays have the length
     createParticles gave them *)
  set_heap (<[originalColors := heap s colors]> (heap s)) s.

Definition setModel (vertices : list num) (recolor : option (nat -> num))
    (d : Sampling) (s : t) : t :=
  let s := set_model vertices s in
  let s := _buildTargetPositions d s in
  match recolor with
  | Some c => applyColors c s
  | None => s
  end.

Definition updateParticleCount (count : nat) (c : Creation) (d : Sampling)
    (s : t) : t :=
  let s := mk (particles s) count (heap s) (morphTarget s) (morphSpeed s)
              (autoMorphOnBeat s) (morphDirection s) (morphPauseFrames s)
              (model s) (modelVertices s) (time s) (uAudioScale s) (uTime s)
              (rotation_y s) in
  let s := createParticles c s in
  if model s then _buildTargetPositions d s else s.

Definition setMorphSpeed (speed : num) (s : t) : t := set_morphSpeed speed s.

Definition setAutoMorphOnBeat (value : bool) (s : t) : t :=
  set_autoMorphOnBeat value s.

Definition toggleMorph (s : t) : t :=
  set_morphDirection (morphDirection s * -1) s.

(** ** Per-frame update *)

Record AudioData : Type := {
  audioLevel : num;
  frequencyData : option (list num);
  bass : num;
  mid : num;
  treble : num;
  isBeat : bool;
  reactivity : num;
  attenuation : num;
  turbulence : num
}.

(** [Math.sqrt(q) > c] for a constant [c >= 0], decided on the squares. *)
Definition sqrt_gtb (q : num) (c : Q) : bool := (q >? Num (c * c))%num.

(** One turn of the particle loop of [update], block by block as the
    comments of the source divide it.  [positions], [colors], [sizes] and
    [morphs] of the source are the arrays of the attributes. *)

(** Morph factor (smooth lerp towards target). *)
Definition stepMorph (s : t) (i : nat) : t :=
  let morphs := attribute_array aMorphFactor in
  let morphGoal := if (morphDirection s >? 0)%Z then Num 1 else Num 0 in
  put morphs i
    (get morphs i s + (morphGoal - get morphs i s) * morphSpeed s) s.

(** Turbulence: noise-driven drift on the scatter positions. *)
Definition stepTurbulence (a : AudioData) (s : t) (i : nat) : t :=
  let i3 := (i * 3)%nat in
  let noiseScale := Num (4 # 10) in
  let timeScale := Num (3 # 10) in
  let turbulenceStrength :=
    (turbulence a * (Num 1 + treble a * reactivity a * Num 2))%num in
  let sx := get scatterPositions i3 s in
  let sy := get scatterPositions (i3 + 1) s in
  let sz := get scatterPositions (i3 + 2) s in
  let nx := (noise3D (sx * noiseScale + time s * timeScale)
                     (sy * noiseScale) (sz * noiseScale)
             * turbulenceStrength * Num (1 # 100))%num in
  let ny := (noise3D (sx * noiseScale)
                     (sy * noiseScale + time s * timeScale) (sz * noiseScale)
             * turbulenceStrength * Num (1 # 100))%num in
  let nz := (noise3D (sx * noiseScale) (sy * noiseScale)
                     (sz * noiseScale + time s * timeScale)
             * turbulenceStrength * Num (1 # 100))%num in
  let s := put scatterPositions i3
             (get scatterPositions i3 s + (get velocities i3 s + nx)) s in
  let s := put scatterPositions (i3 + 1)
             (get scatterPositions (i3 + 1) s + (get velocities (i3 + 1) s + ny)) s in
  put scatterPositions (i3 + 2)
    (get scatterPositions (i3 + 2) s + (get velocities (i3 + 2) s + nz)) s.

(** Boundary: gentle pull back past the distance 8. *)
Definition stepBoundary (s : t) (i : nat) : t :=
  let i3 := (i * 3)%nat in
  let sq k := (get scatterPositions (i3 + k) s * get scatterPositions (i3 + k) s)%num in
  if sqrt_gtb (sq 0%nat + sq 1%nat + sq 2%nat) 8
  then
    let pull := Num (1 # 100) in
    let s := put scatterPositions i3
               (get scatterPositions i3 s * (Num 1 - pull)) s in
    let s := put scatterPositions (i3 + 1)
               (get scatterPositions (i3 + 1) s * (Num 1 - pull)) s in
    put scatterPositions (i3 + 2)
      (get scatterPositions (i3 + 2) s * (Num 1 - pull)) s
  else s.

(** Write to the position attribute. *)
Definition stepPosition (s : t) (i : nat) : t :=
  let positions_ := attribute_array position in
  let i3 := (i * 3)%nat in
  let s := put positions_ i3 (get scatterPositions i3 s) s in
  let s := put positions_ (i3 + 1) (get scatterPositions (i3 + 1) s) s in
  put positions_ (i3 + 2) (get scatterPositions (i3 + 2) s) s.

(** Colour: boost from the frequency data, or attenuation back. *)
Definition stepColor (a : AudioData) (s : t) (i : nat) : t :=
  let colors_ := attribute_array aOrigColor in
  let count := settings_particleCount s in
  let i3 := (i * 3)%nat in
  match frequencyData a with
  | Some fd =>
      let freqIndex := nfloor (of_nat i / of_nat count * of_nat (length fd)) in
      let freqValue := (or_default (readAt fd freqIndex) (Num 0) / Num 255)%num in
      let colorBoost :=
        (Num 1 + freqValue * reactivity a * Num (6 # 10)
         + mid a * reactivity a * Num (4 # 10))%num in
      let boosted k s := nmin (get originalColors (i3 + k) s * colorBoost)
                              (Num (15 # 10)) in
      let s := put colors_ i3 (boosted 0%nat s) s in
      let s := put colors_ (i3 + 1) (boosted 1%nat s) s in
      put colors_ (i3 + 2) (boosted 2%nat s) s
  | None =>
      let attenuated k s :=
        (get colors_ (i3 + k) s * attenuation a
         + get originalColors (i3 + k) s * (Num 1 - attenuation a))%num in
      let s := put colors_ i3 (attenuated 0%nat s) s in
      let s := put colors_ (i3 + 1) (attenuated 1%nat s) s in
      put colors_ (i3 + 2) (attenuated 2%nat s) s
  end.

(** Size: bass-reactive pulse; [rnd] is the draw of [Math.random()]. *)
Definition stepSize (a : AudioData) (rnd : num) (s : t) (i : nat) : t :=
  let sizes_ := attribute_array aSize in
  let basePulse := (Num 1 + bass a * reactivity a * Num (8 # 10))%num in
  put sizes_ i ((Num (7 # 10) + rnd * Num (5 # 100)) * basePulse) s.

Definition particleStep (a : AudioData) (rnd : num) (s : t) (i : nat) : t :=
  let s := stepMorph s i in
  let s := stepTurbulence a s i in
  let s := stepBoundary s i in
  let s := stepPosition s i in
  let s := stepColor a s i in
  stepSize a rnd s i.

(** [update(audioData)]; [rnd i] is the draw for particle [i]. *)
Definition update (a : AudioData) (rnd : nat -> num) (s : t) : t :=
  if negb (particles s) then s
  else
    let s := set_time (time s + Num (16 # 1000)) s in
    let count := settings_particleCount s in
    let normalizedAudio := (audioLevel a / Num 255)%num in
    let s := set_uniforms (Num 1 + normalizedAudio * reactivity a * Num (1 # 2))
                          (time s) s in
    (* beat-triggered morph *)
    let s :=
      if isBeat a && autoMorphOnBeat s && (morphPauseFrames s <=? 0)%Z
      then set_morphPauseFrames 15 (set_morphDirection (morphDirection s * -1) s)
      else s in
    let s :=
      if (morphPauseFrames s >? 0)%Z
      then set_morphPauseFrames (morphPauseFrames s - 1) s
      else s in
    let s := fold_left (fun s i => particleStep a (rnd i) s i) (seq 0 count) s in
    set_rotation_y
      (rotation_y s + Num (8 # 10000) * (Num 1 + normalizedAudio * Num (1 # 2))) s.

Definition getParticleCount (s : t) : nat := settings_particleCount s.

(** [getMorphState()]: mean of the first 100 morph factors. *)
Definition getMorphState (s : t) : num :=
  let mf := heap s morphFactors in
  if (length mf =? 0)%nat then Num 0
  else
    let len := Nat.min 100 (length mf) in
    (fold_left (fun sum i => sum + read mf i) (seq 0 len) (Num 0) / of_nat len)%num.

(** What can happen to the object between two frames, and the frame. *)
Inductive event : Type :=
| SetModel (vertices : list num) (recolor : option (nat -> num)) (d : Sampling)
| UpdateParticleCount (count : nat) (c : Creation) (d : Sampling)
| SetMorphSpeed (speed : num)
| SetAutoMorphOnBeat (value : bool)
| ToggleMorph
| Update (a : AudioData) (rnd : nat -> num).

Definition step (s : t) (e : event) : t :=
  match e with
  | SetModel vertices recolor d => setModel vertices recolor d s
  | UpdateParticleCount count c d => updateParticleCount count c d s
  | SetMorphSpeed speed => setMorphSpeed speed s
  | SetAutoMorphOnBeat value => setAutoMorphOnBeat value s
  | ToggleMorph => toggleMorph s
  | Update a rnd => update a rnd s
  end.

Definition run (s : t) (evs : list event) : t := fold_left step evs s.

End Part000.

(* ===================================================================== *)
(** * AudioAnalyzer: the getters (src/main.js, lines 745 to 772) *)
(* ===================================================================== *)

Module AudioGetters.

Import AudioAnalyzer.

(** [getFrequencyData()]: [null] unless analysing. *)
Definition getFrequencyData (a : t) : option (list byte) :=
  if negb (analyser a) || negb (isPlaying a) then None else Some (dataArray a).

(** [getAverageFrequency()]: mean of all the bins, on the byte scale. *)
Definition getAverageFrequency (a : t) : num :=
  if negb (analyser a) || negb (isPlaying a) then Num 0
  else
    let sum := fold_left (fun sum i => (sum + readByte (dataArray a) i)%num)
                         (seq 0 (bufferLength a)) (Num 0) in
    (sum / of_nat (bufferLength a))%num.

Definition getBassFrequency (a : t) : num := (bass a * Num 255)%num.
Definition getMidFrequency (a : t) : num := (mid a * Num 255)%num.
Definition getTrebleFrequency (a : t) : num := (treble a * Num 255)%num.

End AudioGetters.

(* ===================================================================== *)
(** * The first AudioAnalyzer (src/main.js, lines 431 to 586) *)
(* ===================================================================== *)

Module AudioAnalyzerV1.

Record t : Type := mk {
  analyser : bool;
  isPlaying : bool;
  bufferLength : nat;
  dataArray : list byte
}.

(** The bins each getter sums: quarters of the spectrum
    ([Math.floor(bufferLength / 4)], [Math.floor(bufferLength * 3 / 4)]). *)
Definition bassRange (L : nat) : nat := L / 4.
Definition midStart (L : nat) : nat := L / 4.
Definition midEnd (L : nat) : nat := L * 3 / 4.
Definition trebleStart (L : nat) : nat := L * 3 / 4.

Definition bassBins (L : nat) : list nat := AudioAnalyzer.bandBins 0 (bassRange L).
Definition midBins (L : nat) : list nat := AudioAnalyzer.bandBins (midStart L) (midEnd L).
Definition trebleBins (L : nat) : list nat := AudioAnalyzer.bandBins (trebleStart L) L.

Definition sumBins (d : list byte) (bins : list nat) : num :=
  fold_left (fun sum i => (sum + AudioAnalyzer.readByte d i)%num) bins (Num 0).

Definition fill (freq : list byte) (a : t) : t :=
  mk (analyser a) (isPlaying a) (bufferLength a)
     (AudioAnalyzer.getByteFrequencyData freq (dataArray a)).

(** Each getter returns 0 unless analysing; otherwise it refreshes the
    buffer from the analyser's bytes [freq] and averages its bins. *)
Definition getAverageFrequency (freq : list byte) (a : t) : num * t :=
  if negb (analyser a) || negb (isPlaying a) then (Num 0, a)
  else
    let a := fill freq a in
    ((sumBins (dataArray a) (seq 0 (bufferLength a))
      / of_nat (bufferLength a))%num, a).

Definition getBassFrequency (freq : list byte) (a : t) : num * t :=
  if negb (analyser a) || negb (isPlaying a) then (Num 0, a)
  else
    let a := fill freq a in
    let bassRange_ := bassRange (bufferLength a) in
    ((sumBins (dataArray a) (bassBins (bufferLength a)) / of_nat bassRange_)%num, a).

Definition getMidFrequency (freq : list byte) (a : t) : num * t :=
  if negb (analyser a) || negb (isPlaying a) then (Num 0, a)
  else
    let a := fill freq a in
    let start := midStart (bufferLength a) in
    let end_ := midEnd (bufferLength a) in
    ((sumBins (dataArray a) (midBins (bufferLength a))
      / of_Z (Z.of_nat end_ - Z.of_nat start))%num, a).

Definition getTrebleFrequency (freq : list byte) (a : t) : num * t :=
  if negb (analyser a) || negb (isPlaying a) then (Num 0, a)
  else
    let a := fill freq a in
    let start := trebleStart (bufferLength a) in
    ((sumBins (dataArray a) (trebleBins (bufferLength a))
      / of_Z (Z.of_nat (bufferLength a) - Z.of_nat start))%num, a).

End AudioAnalyzerV1.

(* ===================================================================== *)
(** * The first ParticleSystem (unnamed/part_000, lines 195 to 473) *)
(* ===================================================================== *)

Module ParticleSystemV1.

(** The typed arrays are the fields of the object; the [position], [color]
    and [size] attributes of the geometry wrap [particlePositions],
    [particleColors] and [particleSizes] themselves. *)
Record t : Type := mk {
  particles : bool;
  settings_particleCount : nat;
  settings_particleSize : num;
  particlePositions : list num;
  particleColors : list num;
  originalColors : list num;
  particleSizes : list num;
  particleVelocities : list num;
  rotation_y : num
}.

Definition set_positions (v : list num) (s : t) : t :=
  mk (particles s) (settings_particleCount s) (settings_particleSize s) v
     (particleColors s) (originalColors s) (particleSizes s)
     (particleVelocities s) (rotation_y s).

Definition set_colors (v : list num) (s : t) : t :=
  mk (particles s) (settings_particleCount s) (settings_particleSize s)
     (particlePositions s) v (originalColors s) (particleSizes s)
     (particleVelocities s) (rotation_y s).

Definition set_sizes (v : list num) (s : t) : t :=
  mk (particles s) (settings_particleCount s) (settings_particleSize s)
     (particlePositions s) (particleColors s) (originalColors s) v
     (particleVelocities s) (rotation_y s).

Definition set_rotation_y (v : num) (s : t) : t :=
  mk (particles s) (settings_particleCount s) (settings_particleSize s)
     (particlePositions s) (particleColors s) (originalColors s)
     (particleSizes s) (particleVelocities s) v.

(** The position block of one turn of the loop of [update]: drift by the
    velocity, then, past the distance 10, a fresh random place in the cube
    of side 4.  [rnd k] is the draw for coordinate [k]. *)
Definition movePosition (vel : list num) (audioMultiplier : num)
    (rnd : nat -> num) (pos : list num) (i : nat) : list num :=
  let i3 := (i * 3)%nat in
  let pos := write pos i3 (read pos i3 + read vel i3 * audioMultiplier) in
  let pos := write pos (i3 + 1)
               (read pos (i3 + 1) + read vel (i3 + 1) * audioMultiplier) in
  let pos := write pos (i3 + 2)
               (read pos (i3 + 2) + read vel (i3 + 2) * audioMultiplier) in
  let sq k := (read pos (i3 + k) * read pos (i3 + k))%num in
  if Part000.sqrt_gtb (sq 0%nat + sq 1%nat + sq 2%nat) 10
  then
    let pos := write pos i3 ((rnd 0%nat - Num (1 # 2)) * Num 4) in
    let pos := write pos (i3 + 1) ((rnd 1%nat - Num (1 # 2)) * Num 4) in
    write pos (i3 + 2) ((rnd 2%nat - Num (1 # 2)) * Num 4)
  else pos.

(** The colour block: boost from the frequency data (no ceiling here, and
    no default for a missing bin), or attenuation back. *)
Definition moveColor (frequencyData : option (list num))
    (reactivity attenuation : num) (count : nat) (orig col : list num)
    (i : nat) : list num :=
  let i3 := (i * 3)%nat in
  match frequencyData with
  | Some fd =>
      let freqIndex := nfloor (of_nat i / of_nat count * of_nat (length fd)) in
      let freqValue := (Part000.readAt fd freqIndex / Num 255)%num in
      let colorBoost := (Num 1 + freqValue * reactivity * Num (1 # 2))%num in
      let col := write col i3 (read orig i3 * colorBoost) in
      let col := write col (i3 + 1) (read orig (i3 + 1) * colorBoost) in
      write col (i3 + 2) (read orig (i3 + 2) * colorBoost)
  | None =>
      let col := write col i3
                   (read col i3 * attenuation
                    + read orig i3 * (Num 1 - attenuation)) in
      let col := write col (i3 + 1)
                   (read col (i3 + 1) * attenuation
                    + read orig (i3 + 1) * (Num 1 - attenuation)) in
      write col (i3 + 2)
        (read col (i3 + 2) * attenuation
         + read orig (i3 + 2) * (Num 1 - attenuation))
  end.

Definition particleStep (audioLevel : num) (frequencyData : option (list num))
    (reactivity attenuation : num) (rnd : nat -> nat -> num) (s : t) (i : nat) : t :=
  let normalizedAudio := (audioLevel / Num 255)%num in
  let audioMultiplier := (Num 1 + normalizedAudio * reactivity)%num in
  let s := set_positions
             (movePosition (particleVelocities s) audioMultiplier (rnd i)
                (particlePositions s) i) s in
  let s := set_colors
             (moveColor frequencyData reactivity attenuation
                (settings_particleCount s) (originalColors s)
                (particleColors s) i) s in
  set_sizes
    (write (particleSizes s) i
       (settings_particleSize s
        * (Num 1 + normalizedAudio * reactivity * Num (3 # 10))))
    s.

(** [update(audioLevel, frequencyData, reactivity, attenuation)]; [rnd i k]
    is the draw of [Math.random()] for coordinate [k] of particle [i]. *)
Definition update (audioLevel : num) (frequencyData : option (list num))
    (reactivity attenuation : num) (rnd : nat -> nat -> num) (s : t) : t :=
  if negb (particles s) then s
  else
    let normalizedAudio := (audioLevel / Num 255)%num in
    let s := fold_left
               (particleStep audioLevel frequencyData reactivity attenuation rnd)
               (seq 0 (settings_particleCount s)) s in
    set_rotation_y (rotation_y s + Num (1 # 1000) * (Num 1 + normalizedAudio)) s.

(** [updateParticleSize(size)]. *)
Definition updateParticleSize (size : num) (s : t) : t :=
  mk (particles s) (settings_particleCount s) size (particlePositions s)
     (particleColors s) (originalColors s)
     (map (fun _ => size) (particleSizes s))
     (particleVelocities s) (rotation_y s).

Definition getParticleCount (s : t) : nat := settings_particleCount s.

End ParticleSystemV1.

(* ===================================================================== *)
(** * Vocabulary of the statements *)
(* ===================================================================== *)

(** Each time of the list is more than [I] after the one before it, the
    first one more than [I] after [L]. *)
Inductive spacedFrom (I : Q) : Q -> list Q -> Prop :=
| spacedFrom_nil (L : Q) : spacedFrom I L []
| spacedFrom_cons (L t : Q) (l : list Q) :
    L + I < t -> spacedFrom I t l -> spacedFrom I L (t :: l).

(** The analyser runs its analysis on a frame. *)
Definition analysing (a : AudioAnalyzer.t) : Prop :=
  AudioAnalyzer.analyser a = true /\ AudioAnalyzer.isPlaying a = true.

(** Once created, the analyser has 256 bins and a buffer of as many bytes. *)
Definition analyser_sized (a : AudioAnalyzer.t) : Prop :=
  AudioAnalyzer.analyser a = true ->
  AudioAnalyzer.bufferLength a = 256%nat
  /\ length (AudioAnalyzer.dataArray a) = 256%nat.

Definition bands_in_unit (a : AudioAnalyzer.t) : Prop :=
  between 0 1 (AudioAnalyzer.bass a)
  /\ between 0 1 (AudioAnalyzer.mid a)
  /\ between 0 1 (AudioAnalyzer.treble a).

(** The raw bass energy of a frame: the mean of the bass bins once the
    analyser's bytes are in the buffer. *)
Definition rawBass (freq : list byte) (a : AudioAnalyzer.t) : num :=
  AudioAnalyzer._bandAverage
    (AudioAnalyzer.getByteFrequencyData freq (AudioAnalyzer.dataArray a))
    0 AudioAnalyzer.bassEnd.

(** The test of [_detectBeat], on the history the call has extended. *)
Definition beatTest (energy : num) (now : Q) (a : AudioAnalyzer.t) : bool :=
  (energy >? AudioAnalyzer.adaptiveThreshold (AudioAnalyzer.beatThreshold a)
               (AudioAnalyzer.pushHistory (AudioAnalyzer.energyHistoryMax a)
                  (AudioAnalyzer.energyHistory a) energy))%num
  && (energy >? AudioAnalyzer.beatEnergy a)%num
  && Qltb (AudioAnalyzer.beatMinInterval a) (now - AudioAnalyzer.lastBeatTime a).

(** Two numbers are the same value ([Q] is a setoid), or both NaN. *)
Definition nsame (x y : num) : Prop :=
  match x, y with
  | Num a, Num b => a == b
  | NaN, NaN => True
  | _, _ => False
  end.






(** Two spectra of 256 bins: silence, and every bin at 255. *)
Definition silence : list byte := repeat x00 256.
Definition loud : list byte := repeat xff 256.


(** The three bands of a spectrum of [L] bins share no bin (no bin occurs
    twice in the three ranges put end to end), and together they are the
    bins below min(128, L), a prefix of the spectrum. *)
Definition partition_coverage (L : nat) : Prop :=
  let bins := AudioAnalyzer.bassBins ++ AudioAnalyzer.midBins
              ++ AudioAnalyzer.trebleBins L in
  NoDup bins
  /\ (Nat.min 128 L <= L)%nat
  /\ forall i : nat, In i bins <-> (i < Nat.min 128 L)%nat.

(** ** Particle engines *)

(** The buffers the per-frame update of part_000 stores into. *)
Definition written (b : Part000.buf) : bool :=
  match b with
  | Part000.positions | Part000.scatterPositions | Part000.colors
  | Part000.sizes | Part000.morphFactors => true
  | Part000.targetPositions | Part000.originalColors | Part000.velocities => false
  end.

(** Every per-particle morph factor is a number of [0, 1]. *)
Definition morphs_in_unit (s : Part000.t) : Prop :=
  Forall (between 0 1) (Part000.heap s Part000.morphFactors).

(** An event that sets the morph speed sets it within [0, 1]. *)
Definition speed_in_unit (e : Part000.event) : Prop :=
  match e with
  | Part000.SetMorphSpeed speed => between 0 1 speed
  | _ => True
  end.

(** The fields of the part_000 object that are not typed arrays. *)
Definition scalars (s : Part000.t) :=
  (Part000.particles s, Part000.settings_particleCount s,
   Part000.morphTarget s, Part000.morphSpeed s, Part000.autoMorphOnBeat s,
   Part000.morphDirection s, Part000.morphPauseFrames s, Part000.model s,
   Part000.modelVertices s, Part000.time s, Part000.uAudioScale s,
   Part000.uTime s, Part000.rotation_y s).

(** The shared morph scalar of src/ParticleSystem.js enters [update] as a
    number and is advanced by numbers only. *)
Definition morph_numeric (p : ParticleSystem.t) : Prop :=
  is_num (ParticleSystem.morphTarget p)
  /\ is_num (ParticleSystem.morphSpeed p)
  /\ (ParticleSystem.morphDirection p = 0%Z
      \/ is_num (ParticleSystem.params_morphSpeed p)).

(** The morph controls of the src/ParticleSystem.js object. *)
Definition morphState (p : ParticleSystem.t) :=
  (ParticleSystem.params_autoMorph p, ParticleSystem.params_morphSpeed p,
   ParticleSystem.modelPositions p, ParticleSystem.morphTarget p,
   ParticleSystem.morphSpeed p, ParticleSystem.autoMorphOnBeat p,
   ParticleSystem.morphDirection p, ParticleSystem.morphPauseFrames p).

(** The src/ParticleSystem.js object as [setModel] leaves it once a model
    with vertices is loaded (one particle, its target at the origin): morph
    scalar 0.01, direction +1, and [params.morphSpeed] still undefined. *)
Definition loaded : ParticleSystem.t := {|
  ParticleSystem.params_count := 1;
  ParticleSystem.params_autoMorph := false;
  ParticleSystem.params_morphSpeed := NaN;
  ParticleSystem.mouse_x := Num 9999;
  ParticleSystem.mouse_y := Num 9999;
  ParticleSystem.positions := [Num 1; Num 1; Num 1];
  ParticleSystem.scatterPositions := [Num 1; Num 1; Num 1];
  ParticleSystem.modelPositions := Some [Num 0; Num 0; Num 0];
  ParticleSystem.morphTarget := Num (1 # 100);
  ParticleSystem.morphSpeed := Num (2 # 100);
  ParticleSystem.autoMorphOnBeat := true;
  ParticleSystem.morphDirection := 1;
  ParticleSystem.morphPauseFrames := 0;
  ParticleSystem.uTime := Num 0;
  ParticleSystem.uAudioScale := Num 0
|}.

(** What the specification says of [toggleMorph]: the direction it leaves
    is -1 from a morph position of at least 0.5 and +1 below. *)
Definition toggles_by_position (toggle : ParticleSystem.t -> ParticleSystem.t) : Prop :=
  forall p : ParticleSystem.t,
    ParticleSystem.morphDirection (toggle p)
    = if (ParticleSystem.morphTarget p >=? Num (1 # 2))%num then (-1)%Z else 1%Z.

(** Concrete inputs: every draw of [Math.random()] is 1/2, the audio is
    silent, and the library functions are replaced by constants (the
    statements they are used in do not depend on them). *)
Definition half (_ : nat) : num := Num (1 # 2).

Definition creation0 : Part000.Creation := {|
  Part000.rndPosition := half;
  Part000.appliedColor := half;
  Part000.rndSize := half;
  Part000.rndVelocity := half
|}.

Definition sampling0 : Part000.Sampling := {|
  Part000.rndVertex := half;
  Part000.rndJitter := fun _ _ => Num (1 # 2)
|}.

Definition quiet : Part000.AudioData := {|
  Part000.audioLevel := Num 0;
  Part000.frequencyData := None;
  Part000.bass := Num 0;
  Part000.mid := Num 0;
  Part000.treble := Num 0;
  Part000.isBeat := false;
  Part000.reactivity := Num 1;
  Part000.attenuation := Num (95 # 100);
  Part000.turbulence := Num (1 # 2)
|}.

Definition ext0 : ParticleSystem.External := {|
  ParticleSystem.noise3D := fun _ _ _ => Num 0;
  ParticleSystem.Math_sqrt := fun _ => Num 0;
  ParticleSystem.Math_sin := fun _ => Num 0
|}.

Definition quietData : ParticleSystem.AudioData := {|
  ParticleSystem.ad_bass := Num 0;
  ParticleSystem.ad_mid := Num 0;
  ParticleSystem.ad_treble := Num 0;
  ParticleSystem.ad_isBeat := false;
  ParticleSystem.ad_beat := false
|}.

Definition env0 : ParticleSystem.Env := {|
  ParticleSystem.performance_now := Num 1000;
  ParticleSystem.random438 := Num (1 # 2);
  ParticleSystem.random453 := Num (1 # 2);
  ParticleSystem.randomLoop := half
|}.

(** ** Curl noise *)

(** [Math.sqrt] to sixteen decimal places, NaN below zero. *)
Definition sqrt16 (v : num) : num :=
  match v with
  | Num q =>
      if Qle_bool 0 q
      then Num (inject_Z (Z.sqrt (Qfloor (q * inject_Z (10 ^ 32))))
                / inject_Z (10 ^ 16))
      else NaN
  | NaN => NaN
  end.

(** A noise field that only rises along y, by [c] per unit. *)
Definition extSlope (c : Q) : ParticleSystem.External := {|
  ParticleSystem.noise3D := fun _ y _ => (y * Num c)%num;
  ParticleSystem.Math_sqrt := sqrt16;
  ParticleSystem.Math_sin := fun _ => Num 0
|}.

Definition origin : ParticleSystem.Vector3 :=
  ParticleSystem.vec3 (Num 0) (Num 0) (Num 0).

(** The central differences of the noise around [p], one per axis, over the
    step 0.1 on either side. *)
Definition differenceX (ext : ParticleSystem.External)
    (p : ParticleSystem.Vector3) : num :=
  (ParticleSystem.noise3D ext (ParticleSystem.vx p + Num (1 # 10))
     (ParticleSystem.vy p) (ParticleSystem.vz p)
   - ParticleSystem.noise3D ext (ParticleSystem.vx p - Num (1 # 10))
       (ParticleSystem.vy p) (ParticleSystem.vz p))%num.

Definition differenceY (ext : ParticleSystem.External)
    (p : ParticleSystem.Vector3) : num :=
  (ParticleSystem.noise3D ext (ParticleSystem.vx p)
     (ParticleSystem.vy p + Num (1 # 10)) (ParticleSystem.vz p)
   - ParticleSystem.noise3D ext (ParticleSystem.vx p)
       (ParticleSystem.vy p - Num (1 # 10)) (ParticleSystem.vz p))%num.

Definition differenceZ (ext : ParticleSystem.External)
    (p : ParticleSystem.Vector3) : num :=
  (ParticleSystem.noise3D ext (ParticleSystem.vx p) (ParticleSystem.vy p)
     (ParticleSystem.vz p + Num (1 # 10))
   - ParticleSystem.noise3D ext (ParticleSystem.vx p) (ParticleSystem.vy p)
       (ParticleSystem.vz p - Num (1 # 10)))%num.

(** The squared length of the vector the curl is normalised from. *)
Definition rawSquaredLength (ext : ParticleSystem.External)
    (p : ParticleSystem.Vector3) : num :=
  let x := (differenceY ext p - differenceZ ext p)%num in
  let y := (differenceZ ext p - differenceX ext p)%num in
  let z := (differenceX ext p - differenceY ext p)%num in
  (x * x + y * y + z * z)%num.

Definition is_zero (v : ParticleSystem.Vector3) : Prop :=
  nsame (ParticleSystem.vx v) (Num 0) /\ nsame (ParticleSystem.vy v) (Num 0)
  /\ nsame (ParticleSystem.vz v) (Num 0).

Definition numeric_vector (v : ParticleSystem.Vector3) : Prop :=
  is_num (ParticleSystem.vx v) /\ is_num (ParticleSystem.vy v)
  /\ is_num (ParticleSystem.vz v).

(** The clamp the specification describes, with [eps] as the epsilon:
    whatever the noise and the point, a vector of differences shorter than
    [eps] gives the zero vector. *)
Definition epsilon_clamp (eps : Q) : Prop :=
  forall (ext : ParticleSystem.External) (p : ParticleSystem.Vector3),
    (forall a b c : Q,
        is_num (ParticleSystem.noise3D ext (Num a) (Num b) (Num c))) ->
    (forall q : Q, 0 <= q -> is_num (ParticleSystem.Math_sqrt ext (Num q))) ->
    numeric_vector p ->
    ngt (Num (eps * eps)) (rawSquaredLength ext p) ->
    is_zero (ParticleSystem.curlNoise ext p).

(** ** Vocabulary of the further properties *)






(** A frame flips the morph direction on a beat: the beat flag is up, the
    automatic morph is on and the pause counter has run out. *)
Definition beatFlip (a : Part000.AudioData) (s : Part000.t) : bool :=
  Part000.isBeat a && Part000.autoMorphOnBeat s
  && (Part000.morphPauseFrames s <=? 0)%Z.

(** A run of frames of part_000, each with its audio figures and draws. *)
Definition frames (s : Part000.t)
    (fs : list (Part000.AudioData * (nat -> num))) : Part000.t :=
  fold_left (fun s f => Part000.update (fst f) (snd f) s) fs s.


(** A frame with the beat flag up. *)
Definition onBeat : Part000.AudioData := {|
  Part000.audioLevel := Num 128;
  Part000.frequencyData := Some [Num 255; Num 0];
  Part000.bass := Num 1;
  Part000.mid := Num (1 # 2);
  Part000.treble := Num 0;
  Part000.isBeat := true;
  Part000.reactivity := Num 1;
  Part000.attenuation := Num (95 # 100);
  Part000.turbulence := Num (1 # 2)
|}.

(** The particle count, the mouse and the position buffer of the
    src/ParticleSystem.js object. *)
Definition placement (p : ParticleSystem.t) :=
  (ParticleSystem.params_count p, ParticleSystem.mouse_x p,
   ParticleSystem.mouse_y p).

(** The src/ParticleSystem.js object with its one particle exactly under
    the mouse. *)
Definition underMouse : ParticleSystem.t := {|
  ParticleSystem.params_count := 1;
  ParticleSystem.params_autoMorph := false;
  ParticleSystem.params_morphSpeed := NaN;
  ParticleSystem.mouse_x := Num 1;
  ParticleSystem.mouse_y := Num 1;
  ParticleSystem.positions := [Num 1; Num 1; Num 1];
  ParticleSystem.scatterPositions := [Num 1; Num 1; Num 1];
  ParticleSystem.modelPositions := None;
  ParticleSystem.morphTarget := Num 0;
  ParticleSystem.morphSpeed := Num (2 # 100);
  ParticleSystem.autoMorphOnBeat := true;
  ParticleSystem.morphDirection := -1;
  ParticleSystem.morphPauseFrames := 0;
  ParticleSystem.uTime := Num 0;
  ParticleSystem.uAudioScale := Num 0
|}.



(* ===================================================================== *)
(** * Facts about numbers *)
(* ===================================================================== *)

Lemma Qltb_lt (a b : Q) : Qltb a b = true <-> a < b.
Proof.
  unfold Qltb. rewrite negb_true_iff. split.
  - intros H. apply Qnot_le_lt. intros Hle.
    apply Qle_bool_iff in Hle. congruence.
  - intros H. destruct (Qle_bool b a) eqn:E; [|reflexivity].
    apply Qle_bool_iff in E. exfalso. apply (Qlt_not_le _ _ H E).
Qed.


Lemma between_num (lo hi : Q) (x : num) :
  between lo hi x -> exists q : Q, x = Num q /\ lo <= q <= hi.
Proof. destruct x as [q|]; simpl; [eauto | tauto]. Qed.

(* ===================================================================== *)
(** * The audio analyser *)
(* ===================================================================== *)

Section AudioAnalyzerFacts.

Import AudioAnalyzer.

Lemma step_beatMinInterval (a : t) (e : event) :
  beatMinInterval (step a e) = beatMinInterval a.
Proof.
  destruct e; simpl; unfold loadAudio, play, pause, update, _detectBeat;
    repeat match goal with |- context [if ?c then _ else _] => destruct c end;
    reflexivity.
Qed.

Lemma _detectBeat_isBeat (energy : num) (now : Q) (a : t) :
  isBeat (_detectBeat energy now a) = beatTest energy now a.
Proof.
  unfold _detectBeat, beatTest. simpl.
  match goal with |- context [if ?c then _ else _] => destruct c end; reflexivity.
Qed.

Lemma _detectBeat_lastBeatTime (energy : num) (now : Q) (a : t) :
  lastBeatTime (_detectBeat energy now a)
  = if beatTest energy now a then now else lastBeatTime a.
Proof.
  unfold _detectBeat, beatTest. simpl.
  match goal with |- context [if ?c then _ else _] => destruct c end; reflexivity.
Qed.

Lemma _detectBeat_energyHistory (energy : num) (now : Q) (a : t) :
  energyHistory (_detectBeat energy now a)
  = pushHistory (energyHistoryMax a) (energyHistory a) energy.
Proof.
  unfold _detectBeat. simpl.
  match goal with |- context [if ?c then _ else _] => destruct c end; reflexivity.
Qed.

Lemma _detectBeat_beatEnergy (energy : num) (now : Q) (a : t) :
  beatEnergy (_detectBeat energy now a) = (energy * Num (beatDecay a))%num.
Proof.
  unfold _detectBeat. simpl.
  match goal with |- context [if ?c then _ else _] => destruct c end; reflexivity.
Qed.

Lemma update_analysing (freq : list byte) (now : Q) (a : t) :
  analyser a = true -> isPlaying a = true ->
  update freq now a
  = _detectBeat (rawBass freq a) now
      (set_bands
         (smooth (smoothing a) (bass a) (rawBass freq a))
         (smooth (smoothing a) (mid a)
            (_bandAverage (getByteFrequencyData freq (dataArray a)) bassEnd midEnd))
         (smooth (smoothing a) (treble a)
            (_bandAverage (getByteFrequencyData freq (dataArray a)) midEnd
               (trebleEnd (bufferLength a))))
         (set_dataArray (getByteFrequencyData freq (dataArray a)) a)).
Proof. intros Ha Hp. unfold update. rewrite Ha, Hp. reflexivity. Qed.

Lemma update_idle (freq : list byte) (now : Q) (a : t) :
  analyser a && isPlaying a = false -> update freq now a = set_isBeat false a.
Proof.
  intros H. unfold update.
  destruct (analyser a), (isPlaying a); simpl in *; congruence.
Qed.

(** A frame that raises the flag comes more than the interval after the
    stored time and stores its own; any other event leaves the stored time. *)
Lemma update_lastBeatTime (a : t) (freq : list byte) (now : Q) :
  if isBeat (update freq now a)
  then lastBeatTime a + beatMinInterval a < now
       /\ lastBeatTime (update freq now a) = now
  else lastBeatTime (update freq now a) = lastBeatTime a.
Proof.
  destruct (analyser a && isPlaying a) eqn:R.
  - apply andb_true_iff in R. destruct R as [Ha Hp].
    rewrite (update_analysing _ _ _ Ha Hp).
    rewrite _detectBeat_isBeat, _detectBeat_lastBeatTime.
    destruct (beatTest _ _ _) eqn:E; [|reflexivity].
    split; [|reflexivity].
    unfold beatTest in E. apply andb_true_iff in E. destruct E as [_ E].
    apply Qltb_lt in E. simpl in E. lra.
  - rewrite (update_idle _ _ _ R). reflexivity.
Qed.

Lemma step_lastBeatTime_other (a : t) (e : event) :
  match e with Update _ _ => True | _ => lastBeatTime (step a e) = lastBeatTime a end.
Proof.
  destruct e; simpl; trivial; unfold loadAudio, play, pause;
    repeat match goal with |- context [if ?c then _ else _] => destruct c end;
    reflexivity.
Qed.

Lemma beatTimes_spacedFrom (evs : list event) : forall a : t,
  spacedFrom (beatMinInterval a) (lastBeatTime a) (beatTimes a evs).
Proof.
  induction evs as [|e evs IH]; intros a; simpl.
  - constructor.
  - pose proof (IH (step a e)) as IH'.
    rewrite step_beatMinInterval in IH'.
    destruct e as [| | |freq now].
    + pose proof (step_lastBeatTime_other a LoadAudio) as H. simpl in H.
      simpl in IH'. rewrite H in IH'. exact IH'.
    + pose proof (step_lastBeatTime_other a Play) as H. simpl in H.
      simpl in IH'. rewrite H in IH'. exact IH'.
    + pose proof (step_lastBeatTime_other a Pause) as H. simpl in H.
      simpl in IH'. rewrite H in IH'. exact IH'.
    + pose proof (update_lastBeatTime a freq now) as H. simpl in IH' |- *.
      destruct (isBeat (update freq now a)).
      * destruct H as [Hlt Heq]. rewrite Heq in IH'.
        constructor; assumption.
      * rewrite H in IH'. exact IH'.
Qed.

Lemma spacedFrom_later (I L : Q) (l : list Q) :
  0 <= I -> spacedFrom I L l -> forall t : Q, In t l -> L + I < t.
Proof.
  intros HI H. induction H as [L|L t l Hlt Hsp IH]; intros u Hin.
  - destruct Hin.
  - destruct Hin as [->|Hin]; [exact Hlt|].
    specialize (IH u Hin). lra.
Qed.

Lemma spacedFrom_pairs (I L : Q) (l : list Q) :
  0 <= I -> spacedFrom I L l ->
  forall (i j : nat) (t1 t2 : Q),
    (i < j)%nat -> l !! i = Some t1 -> l !! j = Some t2 -> I < t2 - t1.
Proof.
  intros HI H. induction H as [L|L t l Hlt Hsp IH]; intros i j t1 t2 Hij H1 H2.
  - discriminate.
  - destruct j as [|j]; [lia|]. simpl in H2.
    destruct i as [|i]; simpl in H1.
    + injection H1 as <-.
      assert (Hin : In t2 l).
      { apply list_elem_of_In. eapply list_elem_of_lookup_2. exact H2. }
      pose proof (spacedFrom_later I t l HI Hsp t2 Hin). lra.
    + apply (IH i j t1 t2); [lia | assumption | assumption].
Qed.

(** C1.  Beat refractory invariant: whatever the analyser goes through
    (loads, play, pause, frames of any spectrum at any clock value), two
    frames on which the beat flag is true are more than [beatMinInterval]
    apart, the later one after the earlier one. *)
Theorem beat_refractory_invariant (a : t) (evs : list event) (i j : nat) (t1 t2 : Q) :
  0 <= beatMinInterval a ->
  (i < j)%nat ->
  beatTimes a evs !! i = Some t1 ->
  beatTimes a evs !! j = Some t2 ->
  beatMinInterval a < t2 - t1.
Proof.
  intros HI Hij H1 H2.
  exact (spacedFrom_pairs _ _ _ HI (beatTimes_spacedFrom evs a) i j t1 t2 Hij H1 H2).
Qed.

Lemma beat_refractory_invariant_witness :
  beatTimes constructor
    [LoadAudio; Play; Update silence 900; Update loud 1000;
     Update silence 1100; Update loud 1300] = [1000; 1300]
  /\ beatMinInterval constructor < 1300 - 1000.
Proof.
  split.
  - vm_compute. reflexivity.
  - apply (beat_refractory_invariant constructor
             [LoadAudio; Play; Update silence 900; Update loud 1000;
              Update silence 1100; Update loud 1300] 0 1 1000 1300).
    + vm_compute. discriminate.
    + lia.
    + vm_compute. reflexivity.
    + vm_compute. reflexivity.
Defined.

(** *** The beat test *)











(** C4.  What the code does with the tracker at the input where the claim
    fails: a silent frame, a loud frame that is signalled as a beat, then a
    silent frame.  After the beat the tracker is 0.98 times the triggering
    energy 1; one frame later it is 0.98 times that frame's energy, 0, and
    not 0.98 * 0.98. *)
Theorem beat_energy_tracks_current_frame :
  let upto_beat := [LoadAudio; Play; Update silence 984; Update loud 1000] in
  let after := upto_beat ++ [Update silence 1016] in
  beatTimes constructor after = [1000]
  /\ neqb (beatEnergy (run constructor upto_beat)) (Num (98 # 100)) = true
  /\ neqb (beatEnergy (run constructor after)) (Num 0) = true
  /\ neqb (beatEnergy (run constructor after))
          (Num ((98 # 100) * (98 # 100))) = false.
Proof. vm_compute. repeat split; reflexivity. Qed.

(** Whatever the frame, the tracker it leaves is the energy of that frame
    times [beatDecay]: the value stored before plays no part. *)
Lemma update_beatEnergy (a : t) (freq : list byte) (now : Q) :
  analysing a ->
  beatEnergy (update freq now a) = (rawBass freq a * Num (beatDecay a))%num.
Proof.
  intros [Ha Hp]. rewrite (update_analysing _ _ _ Ha Hp).
  rewrite _detectBeat_beatEnergy. reflexivity.
Qed.

(** *** Smoothing *)

Lemma byteValue_range (b : byte) :
  exists q : Q, byteValue b = Num q /\ 0 <= q <= 255.
Proof.
  exists (inject_Z (Z.of_N (Byte.to_N b))). split; [reflexivity|].
  pose proof (Byte.to_N_bounded b) as Hb.
  split.
  - change 0 with (inject_Z 0). rewrite <- Zle_Qle. lia.
  - change 255 with (inject_Z 255). rewrite <- Zle_Qle. lia.
Qed.

Lemma band_sum_range (d : list byte) (bins : list nat) : forall q0 : Q,
  Forall (fun i => (i < length d)%nat) bins ->
  exists q : Q,
    fold_left (fun sum i => (sum + readByte d i)%num) bins (Num q0) = Num q
    /\ q0 <= q <= q0 + 255 * inject_Z (Z.of_nat (length bins)).
Proof.
  induction bins as [|i bins IH]; intros q0 Hall.
  - exists q0. split; [reflexivity|].
    change (inject_Z (Z.of_nat (length (@nil nat)))) with 0. lra.
  - inversion Hall as [|? ? Hi Hall']; subst. clear Hall. rename Hall' into Hall.
    destruct (lookup_lt_is_Some_2 d i Hi) as [b Hb].
    destruct (byteValue_range b) as (v & Hv & Hrange).
    simpl fold_left. unfold readByte at 2. rewrite Hb, Hv. simpl nadd.
    destruct (IH (q0 + v) Hall) as (q & Hq & Hle).
    exists q. split; [exact Hq|].
    replace (Z.of_nat (length (i :: bins))) with (Z.of_nat (length bins) + 1)%Z
      by (simpl length; lia).
    rewrite inject_Z_plus. change (inject_Z 1) with 1. lra.
Qed.

Lemma _bandAverage_unit (d : list byte) (start end_ : nat) :
  (start < end_)%nat -> (end_ <= length d)%nat ->
  between 0 1 (_bandAverage d start end_).
Proof.
  intros Hlt Hle. unfold _bandAverage.
  assert (Hall : Forall (fun i => (i < length d)%nat) (bandBins start end_)).
  { apply Forall_forall. intros i Hi.
    unfold bandBins in Hi. apply in_seq in Hi. lia. }
  destruct (band_sum_range d _ 0 Hall) as (q & Hq & Hq0 & Hq1).
  rewrite Hq. unfold bandBins in Hq1. rewrite length_seq in Hq1.
  set (n := inject_Z (Z.of_nat end_ - Z.of_nat start)).
  assert (Hn : 0 < n).
  { unfold n. change 0 with (inject_Z 0). rewrite <- Zlt_Qlt. lia. }
  assert (Hn' : inject_Z (Z.of_nat (end_ - start)) == n).
  { unfold n. rewrite Nat2Z.inj_sub by lia. reflexivity. }
  rewrite Hn' in Hq1.
  unfold of_Z. fold n. unfold ndiv at 2.
  destruct (Qeq_bool n 0) eqn:E.
  { apply Qeq_bool_iff in E. lra. }
  unfold ndiv. change (Qeq_bool 255 0) with false. simpl.
  split.
  - apply Qle_shift_div_l; [lra|]. apply Qle_shift_div_l; [exact Hn|]. lra.
  - apply Qle_shift_div_r; [lra|]. apply Qle_shift_div_r; [exact Hn|]. lra.
Qed.

Lemma smooth_unit (s : Q) (prev raw : num) :
  0 < s < 1 -> between 0 1 prev -> between 0 1 raw ->
  between 0 1 (smooth s prev raw).
Proof.
  intros Hs Hp Hr.
  destruct (between_num _ _ _ Hp) as (p & -> & Hp').
  destruct (between_num _ _ _ Hr) as (r & -> & Hr').
  simpl. split; nra.
Qed.

Lemma getByteFrequencyData_length (freq dst : list byte) :
  length (getByteFrequencyData freq dst) = length dst.
Proof.
  unfold getByteFrequencyData.
  rewrite length_app, length_take, length_drop. lia.
Qed.

Lemma update_smoothing (freq : list byte) (now : Q) (a : t) :
  smoothing (update freq now a) = smoothing a.
Proof.
  unfold update, _detectBeat.
  repeat match goal with |- context [if ?c then _ else _] => destruct c end;
    reflexivity.
Qed.

Lemma step_smoothing (a : t) (e : event) : smoothing (step a e) = smoothing a.
Proof.
  destruct e; simpl; [| | |apply update_smoothing];
    unfold loadAudio, play, pause;
    repeat match goal with |- context [if ?c then _ else _] => destruct c end;
    reflexivity.
Qed.

Lemma _detectBeat_frame (energy : num) (now : Q) (a : t) :
  let a' := _detectBeat energy now a in
  analyser a' = analyser a /\ bufferLength a' = bufferLength a
  /\ dataArray a' = dataArray a
  /\ bass a' = bass a /\ mid a' = mid a /\ treble a' = treble a.
Proof.
  unfold _detectBeat. simpl.
  match goal with |- context [if ?c then _ else _] => destruct c end;
    simpl; repeat split; reflexivity.
Qed.

Lemma step_invariant (a : t) (e : event) :
  0 < smoothing a < 1 -> analyser_sized a -> bands_in_unit a ->
  analyser_sized (step a e) /\ bands_in_unit (step a e).
Proof.
  intros Hs Hsz Hb. destruct e as [| | |freq now]; simpl.
  - unfold loadAudio. destruct (analyser a) eqn:Ha.
    + split; [|exact Hb]. intros _. exact (Hsz Ha).
    + split; [|exact Hb]. intros _. simpl. split; reflexivity.
  - unfold play. destruct (negb (audioElement a)); split; assumption.
  - unfold pause. destruct (negb (audioElement a)); split; assumption.
  - destruct (analyser a && isPlaying a) eqn:R.
    + apply andb_true_iff in R. destruct R as [Ha Hp].
      destruct (Hsz Ha) as [HL Hlen].
      rewrite (update_analysing _ _ _ Ha Hp).
      match goal with |- context [_detectBeat ?e ?n ?x] =>
        destruct (_detectBeat_frame e n x) as (E1 & E2 & E3 & E4 & E5 & E6)
      end.
      unfold analyser_sized, bands_in_unit.
      rewrite E1, E2, E3, E4, E5, E6. simpl.
      split.
      * intros _. split; [exact HL|].
        rewrite getByteFrequencyData_length. exact Hlen.
      * destruct Hb as (B1 & B2 & B3).
        assert (Hd : length (getByteFrequencyData freq (dataArray a)) = 256%nat)
          by (rewrite getByteFrequencyData_length; exact Hlen).
        repeat split; apply smooth_unit; try assumption;
          apply _bandAverage_unit; rewrite ?HL, ?Hd;
          unfold rawBass, bassEnd, midEnd, trebleEnd; simpl; lia.
    + rewrite (update_idle _ _ _ R). split; assumption.
Qed.

Lemma run_invariant (evs : list event) : forall a : t,
  0 < smoothing a < 1 -> analyser_sized a -> bands_in_unit a ->
  analyser_sized (run a evs) /\ bands_in_unit (run a evs).
Proof.
  induction evs as [|e evs IH]; intros a Hs Hsz Hb; simpl.
  - split; assumption.
  - destruct (step_invariant a e Hs Hsz Hb) as [Hsz' Hb'].
    apply IH; [rewrite step_smoothing; exact Hs | exact Hsz' | exact Hb'].
Qed.

(** C5.  Smoothing boundedness: with a smoothing factor strictly between 0
    and 1, the smoothed bass, mid and treble levels stay in [0, 1] through
    any sequence of loads, play, pause and frames of any byte spectrum, from
    any state where they are in [0, 1] (the constructor sets them to 0). *)
Theorem smoothing_bounded (a : t) (evs : list event) :
  0 < smoothing a < 1 ->
  analyser_sized a ->
  bands_in_unit a ->
  bands_in_unit (run a evs).
Proof.
  revert a. induction evs as [|e evs IH]; intros a Hs Hsz Hb; simpl.
  - exact Hb.
  - destruct (step_invariant a e Hs Hsz Hb) as [Hsz' Hb'].
    apply IH; [rewrite step_smoothing; exact Hs | exact Hsz' | exact Hb'].
Qed.

Lemma smoothing_bounded_witness :
  bands_in_unit
    (run constructor [LoadAudio; Play; Update loud 1000; Update silence 1016]).
Proof.
  apply (smoothing_bounded constructor
           [LoadAudio; Play; Update loud 1000; Update silence 1016]).
  - vm_compute. split; reflexivity.
  - intros H. vm_compute in H. discriminate.
  - vm_compute. repeat split; discriminate.
Defined.

(** *** Band partition *)

Lemma bands_are_prefix (L : nat) :
  (41 <= L)%nat ->
  bassBins ++ midBins ++ trebleBins L = seq 0 (trebleEnd L).
Proof.
  intros HL. unfold bassBins, midBins, trebleBins, bandBins, bassEnd, midEnd.
  replace (trebleEnd L) with (7 + (34 + (trebleEnd L - 41)))%nat
    by (unfold trebleEnd; lia).
  rewrite !seq_app.
  replace (7 + (34 + (trebleEnd L - 41)) - 41)%nat with (trebleEnd L - 41)%nat
    by lia.
  reflexivity.
Qed.

(** C6.  Band partition coverage, for every spectrum the analysis runs on:
    whatever the analyser of the constructor has gone through (loads, play,
    pause, frames), once it has its analyser node the spectrum has
    [bufferLength] bins (256, from fftSize 512), and the bass, mid and treble
    bins of [update] share no bin and are together exactly the bins below
    min(128, bufferLength), a prefix of the spectrum; the bins from 128 up
    are left out. *)
Theorem band_partition_coverage (evs : list event) :
  analyser (run constructor evs) = true ->
  partition_coverage (bufferLength (run constructor evs)).
Proof.
  intros Ha.
  assert (H : analyser_sized (run constructor evs)
              /\ bands_in_unit (run constructor evs)).
  { apply run_invariant.
    - simpl. split; reflexivity.
    - intros H. discriminate.
    - simpl. repeat split; discriminate. }
  destruct H as [Hsz _]. destruct (Hsz Ha) as [-> _].
  unfold partition_coverage. cbv zeta.
  rewrite (bands_are_prefix 256) by lia.
  change (trebleEnd 256) with 128%nat. change (Nat.min 128 256) with 128%nat.
  split; [apply NoDup_seq|]. split; [lia|].
  intros i. rewrite in_seq. lia.
Qed.

Lemma band_partition_coverage_witness :
  partition_coverage (bufferLength (run constructor [LoadAudio; Play])).
Proof.
  apply (band_partition_coverage [LoadAudio; Play]). reflexivity.
Defined.

End AudioAnalyzerFacts.

(* ===================================================================== *)
(** * The engine of part_000 *)
(* ===================================================================== *)

Section Part000Facts.

Import Part000.

Lemma put_scalars (b : buf) (i : nat) (v : num) (s : t) :
  scalars (put b i v s) = scalars s.
Proof. reflexivity. Qed.

Lemma heap_put_same (b : buf) (i : nat) (v : num) (s : t) :
  heap (put b i v s) b = write (heap s b) i v.
Proof. unfold put. simpl. apply fn_lookup_insert. Qed.

Lemma heap_put_other (b b' : buf) (i : nat) (v : num) (s : t) :
  b <> b' -> heap (put b i v s) b' = heap s b'.
Proof. intros Hne. unfold put. simpl. apply fn_lookup_insert_ne. exact Hne. Qed.

(** Each block of the loop stores into one buffer only. *)
Ltac frame_block :=
  intros; cbv zeta;
  repeat match goal with
         | |- context [if ?c then _ else _] => destruct c
         | |- context [match ?o with Some _ => _ | None => _ end] => destruct o
         end;
  cbv zeta;
  repeat (rewrite heap_put_other by assumption);
  reflexivity.

Lemma stepMorph_other (s : t) (i : nat) (b' : buf) :
  morphFactors <> b' -> heap (stepMorph s i) b' = heap s b'.
Proof. unfold stepMorph, attribute_array. frame_block. Qed.

Lemma stepTurbulence_other (a : AudioData) (s : t) (i : nat) (b' : buf) :
  scatterPositions <> b' -> heap (stepTurbulence a s i) b' = heap s b'.
Proof. unfold stepTurbulence. frame_block. Qed.

Lemma stepBoundary_other (s : t) (i : nat) (b' : buf) :
  scatterPositions <> b' -> heap (stepBoundary s i) b' = heap s b'.
Proof. unfold stepBoundary. frame_block. Qed.

Lemma stepPosition_other (s : t) (i : nat) (b' : buf) :
  positions <> b' -> heap (stepPosition s i) b' = heap s b'.
Proof. unfold stepPosition, attribute_array. frame_block. Qed.

Lemma stepColor_other (a : AudioData) (s : t) (i : nat) (b' : buf) :
  colors <> b' -> heap (stepColor a s i) b' = heap s b'.
Proof. unfold stepColor, attribute_array. frame_block. Qed.

Lemma stepSize_other (a : AudioData) (rnd : num) (s : t) (i : nat) (b' : buf) :
  sizes <> b' -> heap (stepSize a rnd s i) b' = heap s b'.
Proof. unfold stepSize, attribute_array. frame_block. Qed.

Ltac scalars_block :=
  intros; cbv zeta;
  repeat match goal with
         | |- context [if ?c then _ else _] => destruct c
         | |- context [match ?o with Some _ => _ | None => _ end] => destruct o
         end;
  reflexivity.

Lemma stepMorph_scalars (s : t) (i : nat) : scalars (stepMorph s i) = scalars s.
Proof. unfold stepMorph. scalars_block. Qed.

Lemma stepTurbulence_scalars (a : AudioData) (s : t) (i : nat) :
  scalars (stepTurbulence a s i) = scalars s.
Proof. unfold stepTurbulence. scalars_block. Qed.

Lemma stepBoundary_scalars (s : t) (i : nat) : scalars (stepBoundary s i) = scalars s.
Proof. unfold stepBoundary. scalars_block. Qed.

Lemma stepPosition_scalars (s : t) (i : nat) : scalars (stepPosition s i) = scalars s.
Proof. unfold stepPosition. scalars_block. Qed.

Lemma stepColor_scalars (a : AudioData) (s : t) (i : nat) :
  scalars (stepColor a s i) = scalars s.
Proof. unfold stepColor. scalars_block. Qed.

Lemma stepSize_scalars (a : AudioData) (rnd : num) (s : t) (i : nat) :
  scalars (stepSize a rnd s i) = scalars s.
Proof. unfold stepSize. scalars_block. Qed.

Lemma particleStep_scalars (a : AudioData) (rnd : num) (s : t) (i : nat) :
  scalars (particleStep a rnd s i) = scalars s.
Proof.
  unfold particleStep. cbv zeta.
  rewrite stepSize_scalars, stepColor_scalars, stepPosition_scalars,
    stepBoundary_scalars, stepTurbulence_scalars, stepMorph_scalars.
  reflexivity.
Qed.

Lemma particleStep_unwritten (a : AudioData) (rnd : num) (s : t) (i : nat) (b' : buf) :
  written b' = false -> heap (particleStep a rnd s i) b' = heap s b'.
Proof.
  intros Hb. unfold particleStep. cbv zeta.
  rewrite stepSize_other, stepColor_other, stepPosition_other,
    stepBoundary_other, stepTurbulence_other, stepMorph_other;
    first [reflexivity | destruct b'; simpl in Hb; congruence].
Qed.

Lemma particleStep_morphFactors (a : AudioData) (rnd : num) (s : t) (i : nat) :
  heap (particleStep a rnd s i) morphFactors
  = write (heap s morphFactors) i
      (get morphFactors i s
       + ((if (morphDirection s >? 0)%Z then Num 1 else Num 0)
          - get morphFactors i s) * morphSpeed s)%num.
Proof.
  unfold particleStep. cbv zeta.
  rewrite stepSize_other, stepColor_other, stepPosition_other,
    stepBoundary_other, stepTurbulence_other by discriminate.
  unfold stepMorph, attribute_array. cbv zeta. apply heap_put_same.
Qed.

Lemma loop_unwritten (a : AudioData) (rnd : nat -> num) (l : list nat) (b' : buf) :
  written b' = false ->
  forall s : t,
    heap (fold_left (fun s i => particleStep a (rnd i) s i) l s) b' = heap s b'.
Proof.
  intros Hb. induction l as [|i l IH]; intros s; simpl.
  - reflexivity.
  - rewrite IH. apply particleStep_unwritten. exact Hb.
Qed.

Lemma loop_scalars (a : AudioData) (rnd : nat -> num) (l : list nat) :
  forall s : t,
    scalars (fold_left (fun s i => particleStep a (rnd i) s i) l s) = scalars s.
Proof.
  induction l as [|i l IH]; intros s; simpl.
  - reflexivity.
  - rewrite IH. apply particleStep_scalars.
Qed.

(** The part of [update] before the particle loop: clock, uniforms and
    the beat-triggered toggle. *)
Lemma update_unfold (a : AudioData) (rnd : nat -> num) (s : t) :
  particles s = true ->
  exists s0 : t,
    heap s0 = heap s
    /\ morphSpeed s0 = morphSpeed s
    /\ settings_particleCount s0 = settings_particleCount s
    /\ update a rnd s
       = set_rotation_y
           (rotation_y
              (fold_left (fun s i => particleStep a (rnd i) s i)
                 (seq 0 (settings_particleCount s)) s0)
            + Num (8 # 10000)
              * (Num 1 + audioLevel a / Num 255 * Num (1 # 2)))%num
           (fold_left (fun s i => particleStep a (rnd i) s i)
              (seq 0 (settings_particleCount s)) s0).
Proof.
  intros Hp. unfold update. rewrite Hp. cbv zeta. simpl negb. cbv iota.
  match goal with
  | |- context [fold_left _ _ ?x] => exists x
  end.
  repeat match goal with
         | |- context [if ?c then _ else _] => destruct c
         end; repeat split; reflexivity.
Qed.

Lemma update_unwritten (a : AudioData) (rnd : nat -> num) (s : t) (b : buf) :
  written b = false -> heap (update a rnd s) b = heap s b.
Proof.
  intros Hb. destruct (particles s) eqn:Hp.
  - destruct (update_unfold a rnd s Hp) as (s0 & Hh & _ & _ & ->).
    simpl. rewrite loop_unwritten by exact Hb. rewrite Hh. reflexivity.
  - unfold update. rewrite Hp. reflexivity.
Qed.

(** C10.  Frame condition of the per-frame update: one call of [update]
    leaves the [originalColors], [targetPositions] and [velocities] arrays
    as they were; the only arrays it stores into are the position,
    scatter-position, colour, size and morph-factor buffers. *)
Theorem update_frame (a : AudioData) (rnd : nat -> num) (s : t) :
  heap (update a rnd s) originalColors = heap s originalColors
  /\ heap (update a rnd s) targetPositions = heap s targetPositions
  /\ heap (update a rnd s) velocities = heap s velocities.
Proof. repeat split; apply update_unwritten; reflexivity. Qed.

(** *** Per-particle morph factors *)

Lemma morph_lerp_unit (m g v : Q) :
  0 <= m <= 1 -> 0 <= g <= 1 -> 0 <= v <= 1 ->
  0 <= m + (g - m) * v <= 1.
Proof. intros Hm Hg Hv. split; nra. Qed.

Lemma stepMorph_unit (mf : list num) (i : nat) (dir : Z) (speed : num) :
  Forall (between 0 1) mf -> between 0 1 speed ->
  Forall (between 0 1)
    (write mf i
       (read mf i + ((if (dir >? 0)%Z then Num 1 else Num 0) - read mf i) * speed)%num).
Proof.
  intros Hmf Hsp. unfold write.
  destruct (mf !! i) as [m|] eqn:E.
  - apply Forall_insert; [exact Hmf|].
    unfold read. rewrite E.
    pose proof (Forall_lookup_1 _ _ _ _ Hmf E) as Hm.
    destruct (between_num _ _ _ Hm) as (qm & -> & Hqm).
    destruct (between_num _ _ _ Hsp) as (qv & -> & Hqv).
    destruct (dir >? 0)%Z; simpl; apply morph_lerp_unit; lra.
  - rewrite list_insert_ge; [exact Hmf|].
    apply lookup_ge_None. exact E.
Qed.

Lemma particleStep_morphSpeed (a : AudioData) (rnd : num) (s : t) (i : nat) :
  morphSpeed (particleStep a rnd s i) = morphSpeed s.
Proof.
  pose proof (particleStep_scalars a rnd s i) as H.
  unfold scalars in H. congruence.
Qed.

Lemma loop_morphs_in_unit (a : AudioData) (rnd : nat -> num) (l : list nat) :
  forall s : t,
    between 0 1 (morphSpeed s) -> morphs_in_unit s ->
    morphs_in_unit (fold_left (fun s i => particleStep a (rnd i) s i) l s).
Proof.
  induction l as [|i l IH]; intros s Hsp Hm; simpl.
  - exact Hm.
  - apply IH.
    + rewrite particleStep_morphSpeed. exact Hsp.
    + unfold morphs_in_unit. rewrite particleStep_morphFactors.
      apply stepMorph_unit; assumption.
Qed.

Lemma update_morphs_in_unit (a : AudioData) (rnd : nat -> num) (s : t) :
  between 0 1 (morphSpeed s) -> morphs_in_unit s ->
  morphs_in_unit (update a rnd s).
Proof.
  intros Hsp Hm. destruct (particles s) eqn:Hp.
  - destruct (update_unfold a rnd s Hp) as (s0 & Hh & Hs & _ & ->).
    unfold morphs_in_unit. simpl.
    apply loop_morphs_in_unit.
    + rewrite Hs. exact Hsp.
    + unfold morphs_in_unit. rewrite Hh. exact Hm.
  - unfold update. rewrite Hp. exact Hm.
Qed.

Lemma update_morphSpeed (a : AudioData) (rnd : nat -> num) (s : t) :
  morphSpeed (update a rnd s) = morphSpeed s.
Proof.
  destruct (particles s) eqn:Hp.
  - destruct (update_unfold a rnd s Hp) as (s0 & _ & Hs & _ & ->).
    simpl. rewrite <- Hs.
    pose proof (loop_scalars a rnd (seq 0 (settings_particleCount s)) s0) as H.
    unfold scalars in H. congruence.
  - unfold update. rewrite Hp. reflexivity.
Qed.

(** [_buildTargetPositions] stores into [targetPositions] only. *)
Lemma _buildTargetPositions_other (d : Sampling) (s : t) (b' : buf) :
  targetPositions <> b' -> heap (_buildTargetPositions d s) b' = heap s b'.
Proof.
  intros Hne. unfold _buildTargetPositions.
  destruct (length (modelVertices s) =? 0)%nat; [reflexivity|].
  generalize (modelVertices s) (seq 0 (settings_particleCount s)).
  intros verts l. revert s.
  induction l as [|i l IH]; intros s; simpl.
  - reflexivity.
  - rewrite IH. rewrite !heap_put_other by exact Hne. reflexivity.
Qed.

Lemma _buildTargetPositions_morphSpeed (d : Sampling) (s : t) :
  morphSpeed (_buildTargetPositions d s) = morphSpeed s.
Proof.
  unfold _buildTargetPositions.
  destruct (length (modelVertices s) =? 0)%nat; [reflexivity|].
  generalize (modelVertices s) (seq 0 (settings_particleCount s)).
  intros verts l. revert s.
  induction l as [|i l IH]; intros s; simpl.
  - reflexivity.
  - rewrite IH. reflexivity.
Qed.

Lemma step_morphs_in_unit (s : t) (e : event) :
  speed_in_unit e ->
  between 0 1 (morphSpeed s) -> morphs_in_unit s ->
  between 0 1 (morphSpeed (step s e)) /\ morphs_in_unit (step s e).
Proof.
  intros He Hsp Hm. unfold morphs_in_unit in *.
  destruct e as [vs rc d|count c d|speed|value| |a rnd]; simpl in *.
  - unfold setModel. cbv zeta.
    destruct rc as [c|]; unfold applyColors; cbv zeta; simpl;
      rewrite ?fn_lookup_insert_ne by discriminate;
      rewrite _buildTargetPositions_other by discriminate;
      rewrite _buildTargetPositions_morphSpeed; simpl; split; assumption.
  - unfold updateParticleCount. cbv zeta.
    match goal with |- context [if ?c then _ else _] => destruct c end;
      rewrite ?_buildTargetPositions_other by discriminate;
      rewrite ?_buildTargetPositions_morphSpeed; simpl;
      (split; [exact Hsp|]);
      apply Forall_forall; intros x Hx;
      apply repeat_spec in Hx; subst x; simpl; lra.
  - split; assumption.
  - split; assumption.
  - split; assumption.
  - split; [rewrite update_morphSpeed; exact Hsp|].
    apply update_morphs_in_unit; assumption.
Qed.

Lemma run_morphs_in_unit (evs : list event) : forall s : t,
  Forall speed_in_unit evs ->
  between 0 1 (morphSpeed s) -> morphs_in_unit s ->
  morphs_in_unit (run s evs).
Proof.
  induction evs as [|e evs IH]; intros s Hall Hsp Hm; simpl.
  - exact Hm.
  - inversion Hall as [|? ? He Hall']; subst.
    destruct (step_morphs_in_unit s e He Hsp Hm) as [Hsp' Hm'].
    apply IH; assumption.
Qed.

End Part000Facts.

(* ===================================================================== *)
(** * The engine of src/ParticleSystem.js *)
(* ===================================================================== *)

Section ParticleSystemFacts.

Import ParticleSystem.

Lemma particleStep_morphState (ext : External) (time treble : num)
    (rnd : nat -> num) (p : t) (i : nat) :
  morphState (particleStep ext time treble rnd p i) = morphState p.
Proof.
  unfold particleStep. cbv zeta.
  match goal with |- context [if ?c then _ else _] => destruct c end;
    reflexivity.
Qed.

Lemma loop_morphState (ext : External) (time treble : num) (rnd : nat -> num)
    (l : list nat) : forall p : t,
  morphState (fold_left (particleStep ext time treble rnd) l p) = morphState p.
Proof.
  induction l as [|i l IH]; intros p; simpl.
  - reflexivity.
  - rewrite IH. apply particleStep_morphState.
Qed.

Lemma clamp_unit (v : num) : is_num v -> between 0 1 (clamp v (Num 0) (Num 1)).
Proof.
  destruct v as [q|]; simpl; [intros _|tauto]. split.
  - apply Q.le_max_l.
  - apply Q.max_lub; [lra|]. apply Q.le_min_l.
Qed.

Lemma morphState_eq (p q : t) :
  morphState p = morphState q ->
  params_autoMorph p = params_autoMorph q
  /\ params_morphSpeed p = params_morphSpeed q
  /\ modelPositions p = modelPositions q
  /\ morphTarget p = morphTarget q
  /\ morphSpeed p = morphSpeed q
  /\ autoMorphOnBeat p = autoMorphOnBeat q
  /\ morphDirection p = morphDirection q
  /\ morphPauseFrames p = morphPauseFrames q.
Proof. unfold morphState. intros H. injection H as -> -> -> -> -> -> -> ->. tauto. Qed.

Lemma autoMorph_keeps (b : bool) (r : num) (p : t) :
  modelPositions (autoMorph b r p) = modelPositions p
  /\ morphTarget (autoMorph b r p) = morphTarget p
  /\ morphSpeed (autoMorph b r p) = morphSpeed p.
Proof.
  unfold autoMorph, toggleMorph.
  repeat match goal with |- context [if ?c then _ else _] => destruct c end;
    repeat split; reflexivity.
Qed.

Lemma beatToggle_keeps (b : bool) (r : num) (p : t) :
  modelPositions (beatToggle b r p) = modelPositions p
  /\ morphTarget (beatToggle b r p) = morphTarget p
  /\ morphSpeed (beatToggle b r p) = morphSpeed p.
Proof.
  unfold beatToggle. cbv zeta.
  repeat match goal with |- context [if ?c then _ else _] => destruct c end;
    repeat split; reflexivity.
Qed.

Lemma morphBlock1_keeps (p : t) :
  modelPositions (morphBlock1 p) = modelPositions p
  /\ morphSpeed (morphBlock1 p) = morphSpeed p.
Proof.
  unfold morphBlock1. cbv zeta.
  repeat match goal with |- context [if ?c then _ else _] => destruct c end;
    repeat split; reflexivity.
Qed.

Lemma morphBlock1_numeric (p : t) :
  is_num (morphTarget p) ->
  morphDirection p = 0%Z \/ is_num (params_morphSpeed p) ->
  is_num (morphTarget (morphBlock1 p)).
Proof.
  intros Hm Hd. unfold morphBlock1. cbv zeta.
  destruct (morphDirection p =? 0)%Z eqn:E; [exact Hm|].
  destruct Hd as [Hd|Hd]; [rewrite Hd in E; discriminate|].
  destruct (morphTarget p) as [m|]; [|destruct Hm].
  destruct (params_morphSpeed p) as [v|]; [|destruct Hd].
  simpl.
  repeat match goal with |- context [if ?c then _ else _] => destruct c end;
    exact I.
Qed.

(** Without a model the last morph block zeroes the scalar; with one it
    clamps whatever number comes in. *)
Lemma morphFactorUpdate_None (p : t) :
  modelPositions p = None -> morphTarget (morphFactorUpdate p) = Num 0.
Proof. intros H. unfold morphFactorUpdate. rewrite H. reflexivity. Qed.

Lemma morphFactorUpdate_unit (p : t) :
  is_num (morphTarget p) -> is_num (morphSpeed p) ->
  between 0 1 (morphTarget (morphFactorUpdate p)).
Proof.
  intros Hm Hs. unfold morphFactorUpdate.
  destruct (modelPositions p); simpl; [|lra].
  apply clamp_unit.
  destruct (morphTarget p); [|destruct Hm].
  destruct (morphSpeed p); [|destruct Hs]. exact I.
Qed.

(** The particle loop leaves the morph controls as the blocks before it
    set them. *)
Lemma update_morphState (ext : External) (ad : AudioData) (env : Env) (p : t) :
  morphState (update ext ad env p) = morphState (updateControls ad env p).
Proof. unfold update. cbv zeta. apply loop_morphState. Qed.

Lemma updateControls_None (ad : AudioData) (env : Env) (p : t) :
  modelPositions p = None -> morphTarget (updateControls ad env p) = Num 0.
Proof.
  intros H. unfold updateControls. cbv zeta.
  apply morphFactorUpdate_None.
  rewrite (proj1 (beatToggle_keeps _ _ _)). simpl.
  rewrite (proj1 (autoMorph_keeps _ _ _)).
  rewrite (proj1 (morphBlock1_keeps _)). exact H.
Qed.

Lemma updateControls_unit (ad : AudioData) (env : Env) (p : t) :
  morph_numeric p -> between 0 1 (morphTarget (updateControls ad env p)).
Proof.
  intros (Ht & Hs & Hd). unfold updateControls. cbv zeta.
  apply morphFactorUpdate_unit.
  - rewrite (proj1 (proj2 (beatToggle_keeps _ _ _))). simpl.
    rewrite (proj1 (proj2 (autoMorph_keeps _ _ _))).
    apply morphBlock1_numeric; assumption.
  - rewrite (proj2 (proj2 (beatToggle_keeps _ _ _))). simpl.
    rewrite (proj2 (proj2 (autoMorph_keeps _ _ _))).
    rewrite (proj2 (morphBlock1_keeps _)). exact Hs.
Qed.

Lemma update_morphTarget (ext : External) (ad : AudioData) (env : Env) (p : t) :
  morphTarget (update ext ad env p) = morphTarget (updateControls ad env p).
Proof.
  pose proof (update_morphState ext ad env p) as H.
  apply morphState_eq in H. tauto.
Qed.

Lemma update_morphDirection (ext : External) (ad : AudioData) (env : Env) (p : t) :
  morphDirection (update ext ad env p) = morphDirection (updateControls ad env p).
Proof.
  pose proof (update_morphState ext ad env p) as H.
  apply morphState_eq in H. tauto.
Qed.

(** *** Morph factor bounds (both engines) *)

(** C2, as the code has it.  Morph factor boundedness: in the engine of
    part_000 every per-particle morph factor stays in [0, 1] through any
    sequence of reconfigurations, toggles and frames, for every direction,
    provided the morph speed is kept within [0, 1]; in src/ParticleSystem.js
    the shared scalar is, after every frame, 0 when no model is loaded and
    otherwise clamped into [0, 1] for every speed, whenever the scalar and
    the speeds it is advanced by are numbers. *)
Theorem morph_factor_bounded (s : Part000.t) (evs : list Part000.event)
    (ext : External) (ad : AudioData) (env : Env) (p : t) :
  between 0 1 (Part000.morphSpeed s) ->
  Forall speed_in_unit evs ->
  morphs_in_unit s ->
  modelPositions p = None \/ morph_numeric p ->
  morphs_in_unit (Part000.run s evs)
  /\ between 0 1 (morphTarget (update ext ad env p)).
Proof.
  intros Hsp Hall Hm Hp. split.
  - apply run_morphs_in_unit; assumption.
  - rewrite update_morphTarget. destruct Hp as [Hnone|Hnum].
    + rewrite updateControls_None by exact Hnone. simpl. lra.
    + apply updateControls_unit. exact Hnum.
Qed.

Lemma morph_factor_bounded_witness :
  morphs_in_unit
    (Part000.run (Part000.constructor 1 creation0)
       [Part000.ToggleMorph; Part000.SetMorphSpeed (Num (1 # 2));
        Part000.Update quiet half])
  /\ between 0 1 (morphTarget (update ext0 quietData env0 (constructor half))).
Proof.
  apply (morph_factor_bounded (Part000.constructor 1 creation0)
           [Part000.ToggleMorph; Part000.SetMorphSpeed (Num (1 # 2));
            Part000.Update quiet half]
           ext0 quietData env0 (constructor half)).
  - simpl. split; discriminate.
  - repeat constructor; simpl; discriminate.
  - repeat constructor; simpl; discriminate.
  - left. reflexivity.
Defined.

(** C2 as stated fails for a morph speed above 1: in the engine of part_000,
    one toggle, a morph speed of 2 and one frame take the morph factor of
    the particle from 0 to 2. *)
Lemma morph_factor_overshoots :
  ~ morphs_in_unit
      (Part000.run (Part000.constructor 1 creation0)
         [Part000.ToggleMorph; Part000.SetMorphSpeed (Num 2);
          Part000.Update quiet half]).
Proof.
  unfold morphs_in_unit.
  assert (E : Part000.heap
                (Part000.run (Part000.constructor 1 creation0)
                   [Part000.ToggleMorph; Part000.SetMorphSpeed (Num 2);
                    Part000.Update quiet half]) Part000.morphFactors
              = [Num 2]) by (vm_compute; reflexivity).
  rewrite E. intros H. inversion H as [|x l Hx Hl]; subst.
  simpl in Hx. destruct Hx as [_ Hx]. apply Qle_bool_iff in Hx. discriminate.
Qed.

(** With a model loaded the shared scalar is lost on the first frame:
    [params.morphSpeed] is undefined, so the first morph block adds NaN,
    and the clamp returns NaN. *)
Lemma update_loaded_NaN :
  morphTarget (update ext0 quietData env0 loaded) = NaN.
Proof. vm_compute. reflexivity. Qed.

(** *** toggleMorph *)

(** The definition of lines 348 to 354, which the later definition of the
    same class body replaces, is the one the specification describes. *)
Lemma toggleMorph_348_by_position : toggles_by_position toggleMorph_348.
Proof.
  intros p. unfold toggleMorph_348.
  destruct (morphTarget p >=? Num (1 # 2))%num; reflexivity.
Qed.

(** C7.  What [toggleMorph] does where the claim fails.  A fresh object of
    src/ParticleSystem.js toggled once is at morph position 0 and heads
    towards the model (direction +1).  Toggled again it heads towards 0
    (direction -1), although the position, 0, is below 0.5: the method of
    the object is the later definition of the class body (line 407), which
    negates the direction and never reads the position, and not the
    definition of lines 348 to 354, which from that state gives +1, as the
    claim has it.  The engine of part_000 has the negating method only. *)
Theorem toggleMorph_overridden :
  let p := toggleMorph (constructor half) in
  (morphTarget p = Num 0 /\ morphDirection p = 1%Z)
  /\ morphDirection (toggleMorph p) = (-1)%Z
  /\ morphDirection (toggleMorph_348 p) = 1%Z
  /\ (forall q : t,
        morphDirection (toggleMorph q) = (- morphDirection q)%Z
        /\ morphTarget (toggleMorph q) = morphTarget q)
  /\ (forall s : Part000.t,
        Part000.morphDirection (Part000.toggleMorph s)
        = (- Part000.morphDirection s)%Z).
Proof.
  cbv zeta. unfold constructor, createParticles.
  split; [split; reflexivity|].
  split; [reflexivity|]. split; [reflexivity|]. split.
  - intros q. unfold toggleMorph. simpl. split; [lia|reflexivity].
  - intros s. unfold Part000.toggleMorph. simpl. lia.
Qed.

(** *** No shape *)

(** An empty model: when the model has no vertex, [_buildTargetPositions]
    changes nothing at all, and loading such a model leaves the target
    positions as they were (no vertex is indexed, nothing is divided). *)
Lemma empty_model_noop (d : Part000.Sampling) (recolor : option (nat -> num))
    (s : Part000.t) :
  Part000.modelVertices s = [] ->
  Part000._buildTargetPositions d s = s
  /\ Part000.heap (Part000.setModel [] recolor d s) Part000.targetPositions
     = Part000.heap s Part000.targetPositions.
Proof.
  intros Hv. split.
  - unfold Part000._buildTargetPositions. rewrite Hv. reflexivity.
  - unfold Part000.setModel, Part000._buildTargetPositions. cbv zeta. simpl.
    destruct recolor; [|reflexivity].
    unfold Part000.applyColors. simpl.
    rewrite !fn_lookup_insert_ne by discriminate. reflexivity.
Qed.

Lemma morphBlock1_undefined_speed (p : t) :
  params_morphSpeed p = NaN -> morphDirection p <> 0%Z ->
  morphDirection (morphBlock1 p) = morphDirection p
  /\ morphTarget (morphBlock1 p) = NaN
  /\ params_morphSpeed (morphBlock1 p) = NaN.
Proof.
  intros Hs Hd. unfold morphBlock1. cbv zeta.
  destruct (morphDirection p =? 0)%Z eqn:E; [apply Z.eqb_eq in E; contradiction|].
  cbn [morphTarget set_morphTarget morphDirection params_morphSpeed].
  rewrite Hs.
  assert (Hn : (morphTarget p + of_Z (morphDirection p) * NaN)%num = NaN).
  { destruct (morphTarget p); reflexivity. }
  rewrite Hn. cbn. repeat split; assumption.
Qed.

Lemma autoMorph_NaN (b : bool) (r : num) (p : t) :
  morphTarget p = NaN -> autoMorph b r p = p.
Proof.
  intros H. unfold autoMorph. rewrite H. cbn.
  rewrite !andb_false_r. reflexivity.
Qed.

Lemma beatToggle_direction (b : bool) (r : num) (p : t) :
  (morphDirection (beatToggle b r p) = morphDirection p
   \/ morphDirection (beatToggle b r p) = (- morphDirection p)%Z)
  /\ params_morphSpeed (beatToggle b r p) = params_morphSpeed p.
Proof.
  unfold beatToggle. cbv zeta.
  repeat match goal with |- context [if ?c then _ else _] => destruct c end;
    cbn; split; try reflexivity; first [left; reflexivity | right; lia].
Qed.

Lemma morphFactorUpdate_direction (p : t) :
  morphDirection (morphFactorUpdate p) = morphDirection p
  /\ params_morphSpeed (morphFactorUpdate p) = params_morphSpeed p.
Proof. unfold morphFactorUpdate. destruct (modelPositions p); split; reflexivity. Qed.

(** As long as [params.morphSpeed] is undefined, no frame parks the
    direction at 0. *)
Lemma update_direction_not_parked (ext : External) (ad : AudioData) (env : Env)
    (p : t) :
  params_morphSpeed p = NaN -> morphDirection p <> 0%Z ->
  morphDirection (update ext ad env p) <> 0%Z
  /\ params_morphSpeed (update ext ad env p) = NaN.
Proof.
  intros Hs Hd.
  pose proof (update_morphState ext ad env p) as H.
  apply morphState_eq in H. destruct H as (_ & -> & _ & _ & _ & _ & -> & _).
  unfold updateControls. cbv zeta.
  set (p1 := set_uniforms _ _ p).
  assert (Hs1 : params_morphSpeed p1 = NaN) by exact Hs.
  assert (Hd1 : morphDirection p1 <> 0%Z) by exact Hd.
  destruct (morphBlock1_undefined_speed p1 Hs1 Hd1) as (E1 & E2 & E3).
  rewrite (autoMorph_NaN _ _ _ E2).
  set (p2 := set_uniforms _ _ (morphBlock1 p1)).
  destruct (morphFactorUpdate_direction (beatToggle (ad_beat ad) (random453 env) p2))
    as [-> ->].
  destruct (beatToggle_direction (ad_beat ad) (random453 env) p2) as [[->| ->] ->];
    unfold p2; cbn [morphDirection params_morphSpeed set_uniforms];
    rewrite E1; split; try exact E3; lia.
Qed.

(** C8.  What a frame does without a shape, where the claim fails.  A fresh
    object of src/ParticleSystem.js has no model, and its
    [params.morphSpeed] is undefined: the setter that would assign it
    (line 356) is replaced by the later [setMorphSpeed] of the class body,
    which assigns [this.morphSpeed].  A frame leaves the morph scalar at 0
    but the direction at -1, not 0, also after [setMorphSpeed(0.02)]: the
    first morph block adds -1 * undefined, and NaN passes neither of the
    tests that set the direction to 0.  Had the replaced setter assigned
    [params.morphSpeed], the same frame would leave the direction at 0.
    While [params.morphSpeed] is undefined no frame, whatever its audio,
    brings a direction other than 0 to 0.  The rest of the claim holds: an
    empty model leaves the target positions and the whole object of
    part_000 as they were, and without a model every frame of
    src/ParticleSystem.js leaves the scalar at 0. *)
Theorem no_shape_direction_survives :
  let p := constructor half in
  let frame := update ext0 quietData env0 in
  (modelPositions p = None /\ params_morphSpeed p = NaN)
  /\ morphTarget (frame p) = Num 0
  /\ morphDirection (frame p) = (-1)%Z
  /\ morphDirection (frame (setMorphSpeed (Num (2 # 100)) p)) = (-1)%Z
  /\ morphDirection (frame (setMorphSpeed_356 (Num (2 # 100)) p)) = 0%Z
  /\ (forall (ext : External) (ad : AudioData) (env : Env) (q : t),
        params_morphSpeed q = NaN -> morphDirection q <> 0%Z ->
        morphDirection (update ext ad env q) <> 0%Z
        /\ params_morphSpeed (update ext ad env q) = NaN)
  /\ (forall (d : Part000.Sampling) (recolor : option (nat -> num))
             (s : Part000.t),
        Part000.modelVertices s = [] ->
        Part000._buildTargetPositions d s = s
        /\ Part000.heap (Part000.setModel [] recolor d s) Part000.targetPositions
           = Part000.heap s Part000.targetPositions)
  /\ (forall (ext : External) (ad : AudioData) (env : Env) (q : t),
        modelPositions q = None -> morphTarget (update ext ad env q) = Num 0).
Proof.
  cbv zeta. rewrite !update_morphDirection, !update_morphTarget.
  unfold constructor, createParticles.
  split; [split; reflexivity|].
  split; [reflexivity|]. split; [reflexivity|]. split; [reflexivity|].
  split; [reflexivity|].
  split; [apply update_direction_not_parked|]. split.
  - intros d recolor s Hv. apply empty_model_noop. exact Hv.
  - intros ext ad env q Hq. rewrite update_morphTarget.
    apply updateControls_None. exact Hq.
Qed.

End ParticleSystemFacts.

(* ===================================================================== *)
(** * Further properties of the audio analysers *)
(* ===================================================================== *)

Section AudioAnalyzerMore.

Import AudioAnalyzer.

Lemma step_energyHistoryMax (a : t) (e : event) :
  energyHistoryMax (step a e) = energyHistoryMax a.
Proof.
  destruct e; simpl; unfold loadAudio, play, pause, update, _detectBeat;
    repeat match goal with |- context [if ?c then _ else _] => destruct c end;
    reflexivity.
Qed.

Lemma pushHistory_length (max : nat) (h : list num) (energy : num) :
  (length h <= max)%nat -> (length (pushHistory max h energy) <= max)%nat.
Proof.
  intros H. unfold pushHistory. cbv zeta.
  destruct (max <? length (h ++ [energy]))%nat eqn:E.
  - destruct h as [|x h]; simpl in *; rewrite ?length_app; simpl; lia.
  - apply Nat.ltb_ge in E. exact E.
Qed.

Lemma step_energyHistory_length (a : t) (e : event) :
  (length (energyHistory a) <= energyHistoryMax a)%nat ->
  (length (energyHistory (step a e)) <= energyHistoryMax a)%nat.
Proof.
  intros H. destruct e as [| | |freq now]; simpl.
  - unfold loadAudio. destruct (analyser a); exact H.
  - unfold play. destruct (negb (audioElement a)); exact H.
  - unfold pause. destruct (negb (audioElement a)); exact H.
  - destruct (analyser a && isPlaying a) eqn:R.
    + apply andb_true_iff in R. destruct R as [Ha Hp].
      rewrite (update_analysing _ _ _ Ha Hp), _detectBeat_energyHistory.
      simpl. apply pushHistory_length. exact H.
    + rewrite (update_idle _ _ _ R). exact H.
Qed.

(** The energy history is a bounded buffer: through any sequence of loads,
    play, pause and frames it never holds more than [energyHistoryMax]
    samples (60 from the constructor). *)
Theorem energy_history_bounded (a : t) (evs : list event) :
  (length (energyHistory a) <= energyHistoryMax a)%nat ->
  (length (energyHistory (run a evs)) <= energyHistoryMax a)%nat.
Proof.
  revert a. induction evs as [|e evs IH]; intros a H; simpl.
  - exact H.
  - rewrite <- (step_energyHistoryMax a e). apply IH.
    rewrite step_energyHistoryMax. apply step_energyHistory_length. exact H.
Qed.

Lemma energy_history_bounded_witness :
  (length (energyHistory
             (run constructor [LoadAudio; Play; Update loud 1000; Update silence 1016]))
   <= energyHistoryMax constructor)%nat.
Proof.
  apply (energy_history_bounded constructor
           [LoadAudio; Play; Update loud 1000; Update silence 1016]).
  simpl. lia.
Defined.

(** *** A sustained level *)

Lemma sum_repeat (q : Q) (n : nat) : forall q0 : Q,
  exists r : Q,
    fold_left nadd (repeat (Num q) n) (Num q0) = Num r
    /\ r == q0 + inject_Z (Z.of_nat n) * q.
Proof.
  induction n as [|n IH]; intros q0.
  - exists q0. split; [reflexivity|]. simpl. ring.
  - destruct (IH (q0 + q)) as (r & Hr & Hv).
    exists r. split; [exact Hr|].
    rewrite Hv, Nat2Z.inj_succ. unfold Z.succ. rewrite inject_Z_plus.
    change (inject_Z 1) with 1. ring.
Qed.

Lemma plateau_threshold (thr q : Q) (n : nat) :
  0 <= q ->
  (Num q >? adaptiveThreshold thr (repeat (Num q) n))%num = false.
Proof.
  intros Hq. unfold adaptiveThreshold, average. rewrite repeat_length.
  destruct (sum_repeat q n 0) as (r & -> & Hr).
  unfold of_nat, of_Z, ndiv.
  destruct (Qeq_bool (inject_Z (Z.of_nat n)) 0) eqn:E; [reflexivity|].
  simpl. unfold Qltb. apply negb_false_iff. apply Qle_bool_iff.
  assert (Hn : ~ inject_Z (Z.of_nat n) == 0).
  { intros H. apply Qeq_bool_iff in H. congruence. }
  assert (Hm : r / inject_Z (Z.of_nat n) == q).
  { rewrite Hr. field. exact Hn. }
  eapply Qle_trans; [|apply Q.le_max_r].
  rewrite Hm. lra.
Qed.

Lemma pushHistory_repeat (max : nat) (e : num) (k : nat) :
  exists m : nat, pushHistory max (repeat e k) e = repeat e m.
Proof.
  unfold pushHistory. cbv zeta.
  replace (repeat e k ++ [e]) with (repeat e (S k))
    by (simpl; first [apply repeat_cons | symmetry; apply repeat_cons]).
  destruct (max <? length (repeat e (S k)))%nat.
  - exists k. reflexivity.
  - exists (S k). reflexivity.
Qed.

(** A sustained level never signals a beat: when the history holds nothing
    but the raw bass energy of the current frame (in particular when it is
    empty, on the first frame analysed), the beat flag comes out false,
    whatever the tracker and the clock. *)
Theorem plateau_never_beats (a : t) (freq : list byte) (now : Q) (k : nat) :
  analyser_sized a ->
  energyHistory a = repeat (rawBass freq a) k ->
  isBeat (update freq now a) = false.
Proof.
  intros Hsz Hh.
  destruct (analyser a && isPlaying a) eqn:R.
  - apply andb_true_iff in R. destruct R as [Ha Hp].
    rewrite (update_analysing _ _ _ Ha Hp), _detectBeat_isBeat.
    unfold beatTest. simpl. rewrite Hh.
    destruct (pushHistory_repeat (energyHistoryMax a) (rawBass freq a) k) as [m ->].
    destruct (Hsz Ha) as [_ Hlen].
    assert (Hu : between 0 1 (rawBass freq a)).
    { unfold rawBass. apply _bandAverage_unit; [unfold bassEnd; lia|].
      rewrite getByteFrequencyData_length, Hlen. unfold bassEnd. lia. }
    destruct (between_num _ _ _ Hu) as (q & -> & Hq).
    rewrite plateau_threshold by lra. reflexivity.
  - rewrite (update_idle _ _ _ R). reflexivity.
Qed.

Lemma plateau_never_beats_witness :
  isBeat (update loud 1000 (play (loadAudio constructor))) = false.
Proof.
  apply (plateau_never_beats (play (loadAudio constructor)) loud 1000 0).
  - intros _. split; reflexivity.
  - reflexivity.
Defined.

(** *** Getters *)

Lemma scaled_byte_range (x : num) :
  between 0 1 x -> between 0 255 (x * Num 255)%num.
Proof.
  intros H. destruct (between_num _ _ _ H) as (q & -> & Hq). simpl. lra.
Qed.

Lemma getAverageFrequency_range (a : t) :
  analyser_sized a -> between 0 255 (AudioGetters.getAverageFrequency a).
Proof.
  intros Hsz. unfold AudioGetters.getAverageFrequency.
  destruct (analyser a) eqn:Ha; simpl; [|lra].
  destruct (isPlaying a); simpl; [|lra].
  destruct (Hsz Ha) as [HL Hlen]. rewrite HL.
  assert (Hall : Forall (fun i => (i < length (dataArray a))%nat) (seq 0 256)).
  { apply Forall_forall. intros i Hi. apply in_seq in Hi. lia. }
  destruct (band_sum_range (dataArray a) _ 0 Hall) as (q & -> & Hq0 & Hq1).
  rewrite length_seq in Hq1. unfold of_nat, of_Z, ndiv.
  change (Qeq_bool (inject_Z (Z.of_nat 256)) 0) with false.
  change (inject_Z (Z.of_nat 256)) with 256 in *.
  simpl. split.
  - apply Qle_shift_div_l; lra.
  - apply Qle_shift_div_r; lra.
Qed.

(** On the byte scale: whatever the analyser of the constructor has gone
    through, the overall level [getAverageFrequency()] and the three band
    getters return numbers of [0, 255], and [getFrequencyData()] returns
    either [null] or the buffer of 256 bytes. *)
Theorem getters_on_byte_scale (evs : list event) :
  let a := run constructor evs in
  between 0 255 (AudioGetters.getAverageFrequency a)
  /\ between 0 255 (AudioGetters.getBassFrequency a)
  /\ between 0 255 (AudioGetters.getMidFrequency a)
  /\ between 0 255 (AudioGetters.getTrebleFrequency a)
  /\ match AudioGetters.getFrequencyData a with
     | Some d => length d = 256%nat
     | None => analyser a && isPlaying a = false
     end.
Proof.
  cbv zeta.
  assert (H : analyser_sized (run constructor evs)
              /\ bands_in_unit (run constructor evs)).
  { apply run_invariant.
    - simpl. split; reflexivity.
    - intros Ha. discriminate.
    - simpl. repeat split; discriminate. }
  destruct H as [Hsz (B1 & B2 & B3)].
  split; [apply getAverageFrequency_range; exact Hsz|].
  repeat split; try (apply scaled_byte_range; assumption).
  unfold AudioGetters.getFrequencyData.
  destruct (analyser (run constructor evs)) eqn:Ha; simpl; [|reflexivity].
  destruct (isPlaying (run constructor evs)); simpl; [|reflexivity].
  apply (Hsz Ha).
Qed.

(** *** The first analyser *)

Lemma quarters_ordered (L : nat) : (L / 4 <= L * 3 / 4 <= L)%nat.
Proof.
  split.
  - apply Nat.Div0.div_le_mono. lia.
  - apply Nat.Div0.div_le_upper_bound. lia.
Qed.

Lemma three_ranges (a b L : nat) :
  (a <= b <= L)%nat ->
  seq 0 (a - 0) ++ seq a (b - a) ++ seq b (L - b) = seq 0 L.
Proof.
  intros H.
  replace L with (a + ((b - a) + (L - b)))%nat at 2 by lia.
  rewrite !seq_app. rewrite Nat.sub_0_r. simpl Nat.add.
  replace (a + (b - a))%nat with b by lia.
  reflexivity.
Qed.

(** In the first analyser the three band getters sum quarters of the
    spectrum: for every number of bins their ranges, taken in order, are
    exactly the bins 0 to L - 1, each bin once. *)
Theorem quarter_bands_partition (L : nat) :
  AudioAnalyzerV1.bassBins L ++ AudioAnalyzerV1.midBins L
  ++ AudioAnalyzerV1.trebleBins L = seq 0 L.
Proof.
  unfold AudioAnalyzerV1.bassBins, AudioAnalyzerV1.midBins,
    AudioAnalyzerV1.trebleBins, AudioAnalyzerV1.bassRange,
    AudioAnalyzerV1.midStart, AudioAnalyzerV1.midEnd,
    AudioAnalyzerV1.trebleStart, bandBins.
  apply three_ranges. apply quarters_ordered.
Qed.

End AudioAnalyzerMore.

(* ===================================================================== *)
(** * Further properties of the engine of part_000 *)
(* ===================================================================== *)

Section Part000More.

Import Part000.

(** *** Numbers stay numbers *)





Lemma is_num_neg (x : num) : is_num x -> is_num (nneg x).
Proof. destruct x; simpl; tauto. Qed.

















Lemma scalars_eq (s s' : t) :
  scalars s' = scalars s ->
  settings_particleCount s' = settings_particleCount s
  /\ morphSpeed s' = morphSpeed s
  /\ morphDirection s' = morphDirection s
  /\ morphPauseFrames s' = morphPauseFrames s
  /\ autoMorphOnBeat s' = autoMorphOnBeat s
  /\ time s' = time s
  /\ particles s' = particles s.
Proof. unfold scalars. intros H. injection H as -> -> _ -> -> -> -> _ _ -> _ _ _. tauto. Qed.



(** [update] as the state [s0] its first lines leave, then the particle
    loop, then the rotation. *)
Lemma update_shape (a : AudioData) (rnd : nat -> num) (s : t) :
  particles s = true ->
  exists s0 : t,
    (heap s0 = heap s
     /\ settings_particleCount s0 = settings_particleCount s
     /\ morphSpeed s0 = morphSpeed s
     /\ time s0 = (time s + Num (16 # 1000))%num
     /\ morphDirection s0
        = (if beatFlip a s then morphDirection s * -1 else morphDirection s)%Z
     /\ morphPauseFrames s0
        = (let p := if beatFlip a s then 15 else morphPauseFrames s in
           if p >? 0 then p - 1 else p)%Z)
    /\ (settings_particleCount (update a rnd s) = settings_particleCount s0
        /\ morphSpeed (update a rnd s) = morphSpeed s0
        /\ time (update a rnd s) = time s0
        /\ morphDirection (update a rnd s) = morphDirection s0
        /\ morphPauseFrames (update a rnd s) = morphPauseFrames s0
        /\ autoMorphOnBeat (update a rnd s) = autoMorphOnBeat s
        /\ particles (update a rnd s) = true)
    /\ heap (update a rnd s)
       = heap (fold_left (fun s i => particleStep a (rnd i) s i)
                 (seq 0 (settings_particleCount s)) s0).
Proof.
  intros Hp. unfold update, beatFlip. rewrite Hp. cbv zeta. simpl negb. cbv iota.
  match goal with
  | |- context [fold_left ?f ?l ?x] =>
      exists x; pose proof (loop_scalars a rnd l x) as HL;
      apply scalars_eq in HL; destruct HL as (L1 & L2 & L3 & L4 & L5 & L6 & L7)
  end.
  split; [|split; [|reflexivity]].
  - cbv zeta.
    cbn [set_uniforms set_time set_morphPauseFrames set_morphDirection
         autoMorphOnBeat morphPauseFrames morphDirection heap
         settings_particleCount morphSpeed time].
    destruct (isBeat a && autoMorphOnBeat s && (morphPauseFrames s <=? 0)%Z);
      cbn [set_uniforms set_time set_morphPauseFrames set_morphDirection
           autoMorphOnBeat morphPauseFrames morphDirection heap
           settings_particleCount morphSpeed time];
      [change (15 >? 0)%Z with true; cbv iota
      |destruct (morphPauseFrames s >? 0)%Z];
      cbn [set_uniforms set_time set_morphPauseFrames set_morphDirection
           autoMorphOnBeat morphPauseFrames morphDirection heap
           settings_particleCount morphSpeed time];
      repeat split; reflexivity.
  - cbn [set_rotation_y settings_particleCount morphSpeed time morphDirection
         morphPauseFrames autoMorphOnBeat particles].
    rewrite L5, L7.
    repeat split; try assumption;
      repeat match goal with
             | |- context [if ?c then _ else _] => destruct c
             end; simpl; try reflexivity; exact Hp.
Qed.

Lemma update_idle_particles (a : AudioData) (rnd : nat -> num) (s : t) :
  particles s = false -> update a rnd s = s.
Proof. intros H. unfold update. rewrite H. reflexivity. Qed.





(** *** Morph controls *)

Lemma _buildTargetPositions_scalars (d : Sampling) (s : t) :
  scalars (_buildTargetPositions d s) = scalars s.
Proof.
  unfold _buildTargetPositions.
  destruct (length (modelVertices s) =? 0)%nat; [reflexivity|].
  generalize (modelVertices s) (seq 0 (settings_particleCount s)).
  intros verts l. revert s.
  induction l as [|i l IH]; intros s; simpl.
  - reflexivity.
  - rewrite IH. reflexivity.
Qed.

Lemma update_controls (a : AudioData) (rnd : nat -> num) (s : t) :
  particles s = true ->
  morphDirection (update a rnd s)
  = (if beatFlip a s then morphDirection s * -1 else morphDirection s)%Z
  /\ morphPauseFrames (update a rnd s)
     = (let p := if beatFlip a s then 15 else morphPauseFrames s in
        if p >? 0 then p - 1 else p)%Z
  /\ particles (update a rnd s) = true.
Proof.
  intros Hp.
  destruct (update_shape a rnd s Hp)
    as (s0 & (_ & _ & _ & _ & Hd & Hpf) & (_ & _ & _ & E4 & E5 & _ & E7) & _).
  rewrite E4, E5, Hd, Hpf. repeat split. exact E7.
Qed.

Lemma step_controls (s : t) (e : event) :
  (morphDirection s = 1 \/ morphDirection s = -1)%Z ->
  (0 <= morphPauseFrames s <= 15)%Z ->
  (morphDirection (step s e) = 1 \/ morphDirection (step s e) = -1)%Z
  /\ (0 <= morphPauseFrames (step s e) <= 15)%Z.
Proof.
  intros Hd Hp. destruct e as [vs rc d|count c d|speed|value| |a rnd]; simpl.
  - unfold setModel. cbv zeta.
    assert (E : scalars
                  (match rc with
                   | Some c => applyColors c (_buildTargetPositions d (set_model vs s))
                   | None => _buildTargetPositions d (set_model vs s)
                   end) = scalars (_buildTargetPositions d (set_model vs s)))
      by (destruct rc; reflexivity).
    rewrite _buildTargetPositions_scalars in E.
    apply scalars_eq in E. destruct E as (_ & _ & -> & -> & _). simpl. tauto.
  - unfold updateParticleCount. cbv zeta.
    match goal with |- context [if ?c then ?x else ?y] =>
      assert (E : scalars (if c then x else y) = scalars y)
        by (destruct c; [apply _buildTargetPositions_scalars | reflexivity])
    end.
    apply scalars_eq in E. destruct E as (_ & _ & -> & -> & _). simpl. tauto.
  - tauto.
  - tauto.
  - lia.
  - destruct (particles s) eqn:Hpart.
    + destruct (update_controls a rnd s Hpart) as (-> & -> & _). cbv zeta.
      destruct (beatFlip a s).
      * change (15 >? 0)%Z with true. cbv iota. lia.
      * destruct (morphPauseFrames s >? 0)%Z eqn:E; lia.
    + rewrite update_idle_particles by exact Hpart. tauto.
Qed.

(** The morph direction of part_000 is never 0 and the pause counter stays
    between 0 and 15: whatever happens to the object (models, particle
    counts, speeds, toggles, frames with or without beats), a direction of
    +1 or -1 stays +1 or -1. *)
Theorem morph_controls_invariant (s : t) (evs : list event) :
  (morphDirection s = 1 \/ morphDirection s = -1)%Z ->
  (0 <= morphPauseFrames s <= 15)%Z ->
  (morphDirection (run s evs) = 1 \/ morphDirection (run s evs) = -1)%Z
  /\ (0 <= morphPauseFrames (run s evs) <= 15)%Z.
Proof.
  revert s. induction evs as [|e evs IH]; intros s Hd Hp; simpl.
  - tauto.
  - destruct (step_controls s e Hd Hp) as [Hd' Hp']. apply IH; assumption.
Qed.

Lemma morph_controls_invariant_witness :
  (morphDirection
     (run (constructor 1 creation0)
        [ToggleMorph; SetMorphSpeed (Num (1 # 2)); Update quiet half]) = 1
   \/ morphDirection
        (run (constructor 1 creation0)
           [ToggleMorph; SetMorphSpeed (Num (1 # 2)); Update quiet half]) = -1)%Z
  /\ (0 <= morphPauseFrames
             (run (constructor 1 creation0)
                [ToggleMorph; SetMorphSpeed (Num (1 # 2)); Update quiet half])
       <= 15)%Z.
Proof.
  apply (morph_controls_invariant (constructor 1 creation0)
           [ToggleMorph; SetMorphSpeed (Num (1 # 2)); Update quiet half]).
  - right. reflexivity.
  - simpl. lia.
Defined.

Lemma frames_hold_direction (fs : list (AudioData * (nat -> num))) :
  forall s : t,
    (Z.of_nat (length fs) <= morphPauseFrames s)%Z ->
    morphDirection (frames s fs) = morphDirection s.
Proof.
  induction fs as [|[a rnd] fs IH]; intros s Hlen.
  - reflexivity.
  - change (morphDirection (frames (update a rnd s) fs) = morphDirection s).
    destruct (particles s) eqn:Hp.
    + destruct (update_controls a rnd s Hp) as (Hd & Hpf & _).
      assert (Hflip : beatFlip a s = false).
      { unfold beatFlip. replace (morphPauseFrames s <=? 0)%Z with false.
        - apply andb_false_r.
        - symmetry. apply Z.leb_gt. simpl length in Hlen. lia. }
      rewrite Hflip in Hd, Hpf. cbv zeta in Hpf.
      replace (morphPauseFrames s >? 0)%Z with true in Hpf
        by (symmetry; apply Z.gtb_lt; simpl length in Hlen; lia).
      rewrite IH; [exact Hd|].
      rewrite Hpf. simpl length in Hlen. lia.
    + rewrite update_idle_particles by exact Hp.
      apply IH. simpl length in Hlen. lia.
Qed.

(** Beat-triggered flips are at least 15 frames apart: once a frame has
    flipped the morph direction on a beat, the next 14 frames leave the
    direction as that frame set it, whatever their audio. *)
Theorem beat_flip_cooldown (a : AudioData) (rnd : nat -> num) (s : t)
    (fs : list (AudioData * (nat -> num))) :
  particles s = true ->
  beatFlip a s = true ->
  (length fs <= 14)%nat ->
  morphDirection (update a rnd s) = (- morphDirection s)%Z
  /\ morphDirection (frames (update a rnd s) fs) = (- morphDirection s)%Z.
Proof.
  intros Hp Hflip Hlen.
  destruct (update_controls a rnd s Hp) as (Hd & Hpf & _).
  rewrite Hflip in Hd, Hpf. cbv zeta in Hpf.
  change (15 >? 0)%Z with true in Hpf. cbv iota in Hpf.
  assert (E : morphDirection (update a rnd s) = (- morphDirection s)%Z)
    by (rewrite Hd; lia).
  split; [exact E|].
  rewrite frames_hold_direction; [exact E|]. rewrite Hpf. lia.
Qed.

Lemma beat_flip_cooldown_witness :
  morphDirection (update onBeat half (constructor 1 creation0)) = 1%Z
  /\ morphDirection
       (frames (update onBeat half (constructor 1 creation0))
          [(onBeat, half); (quiet, half)]) = 1%Z.
Proof.
  apply (beat_flip_cooldown onBeat half (constructor 1 creation0)
           [(onBeat, half); (quiet, half)]).
  - reflexivity.
  - reflexivity.
  - simpl. lia.
Defined.

(** *** Colour ceiling *)








(** *** getMorphState *)

Lemma unit_sum_range (mf : list num) (l : list nat) : forall q0 : Q,
  Forall (between 0 1) mf ->
  Forall (fun i => (i < length mf)%nat) l ->
  exists q : Q,
    fold_left (fun sum i => (sum + read mf i)%num) l (Num q0) = Num q
    /\ q0 <= q <= q0 + inject_Z (Z.of_nat (length l)).
Proof.
  induction l as [|i l IH]; intros q0 Hmf Hall.
  - exists q0. split; [reflexivity|].
    change (inject_Z (Z.of_nat (length (@nil nat)))) with 0. lra.
  - inversion Hall as [|? ? Hi Hall']; subst.
    destruct (lookup_lt_is_Some_2 mf i Hi) as [m Hm].
    pose proof (Forall_lookup_1 _ _ _ _ Hmf Hm) as Hu.
    destruct (between_num _ _ _ Hu) as (v & -> & Hv).
    simpl fold_left. unfold read at 2. rewrite Hm. simpl nadd.
    destruct (IH (q0 + v) Hmf Hall') as (q & Hq & Hle).
    exists q. split; [exact Hq|].
    replace (Z.of_nat (length (i :: l))) with (Z.of_nat (length l) + 1)%Z
      by (simpl length; lia).
    rewrite inject_Z_plus. change (inject_Z 1) with 1. lra.
Qed.

(** [getMorphState()] reports a number of [0, 1] as long as the morph
    factors are in [0, 1], and 0 when there is no particle; the division is
    never by zero. *)
Theorem getMorphState_unit (s : t) :
  morphs_in_unit s -> between 0 1 (getMorphState s).
Proof.
  intros Hm. unfold getMorphState. cbv zeta.
  destruct (length (heap s morphFactors) =? 0)%nat eqn:E; [simpl; lra|].
  apply Nat.eqb_neq in E.
  set (len := Nat.min 100 (length (heap s morphFactors))).
  assert (Hlen : (0 < len <= length (heap s morphFactors))%nat)
    by (unfold len; lia).
  assert (Hall : Forall (fun i => (i < length (heap s morphFactors))%nat)
                   (seq 0 len)).
  { apply Forall_forall. intros i Hi. apply in_seq in Hi. lia. }
  destruct (unit_sum_range _ _ 0 Hm Hall) as (q & -> & Hq0 & Hq1).
  rewrite length_seq in Hq1.
  assert (Hn : 0 < inject_Z (Z.of_nat len)).
  { change 0 with (inject_Z 0). rewrite <- Zlt_Qlt. lia. }
  unfold of_nat, of_Z, ndiv.
  destruct (Qeq_bool (inject_Z (Z.of_nat len)) 0) eqn:Ez.
  { apply Qeq_bool_iff in Ez. lra. }
  simpl. split.
  - apply Qle_shift_div_l; [exact Hn|lra].
  - apply Qle_shift_div_r; [exact Hn|lra].
Qed.

Lemma getMorphState_unit_witness :
  between 0 1
    (getMorphState
       (run (constructor 3 creation0)
          [ToggleMorph; SetMorphSpeed (Num (1 # 2)); Update quiet half])).
Proof.
  apply getMorphState_unit.
  apply (run_morphs_in_unit
           [ToggleMorph; SetMorphSpeed (Num (1 # 2)); Update quiet half]
           (constructor 3 creation0)).
  - repeat constructor; simpl; discriminate.
  - simpl. split; discriminate.
  - repeat constructor; simpl; discriminate.
Defined.

End Part000More.

(* ===================================================================== *)
(** * Further properties of the engine of src/ParticleSystem.js *)
(* ===================================================================== *)

Section ParticleSystemMore.

Import ParticleSystem.

(** *** Curl noise *)

Lemma normalize_factor (ext : External) (q : Q) :
  0 <= q -> is_num (Math_sqrt ext (Num q)) ->
  exists k : Q,
    (Num 1 / or_default (Math_sqrt ext (Num q)) (Num 1))%num = Num k
    /\ ~ k == 0.
Proof.
  intros Hq Hs. destruct (Math_sqrt ext (Num q)) as [l|]; [|destruct Hs].
  unfold or_default. destruct (Qeq_bool l 0) eqn:E.
  - exists (1 / 1). split; [reflexivity|]. intros H. revert H. compute. discriminate.
  - unfold ndiv. rewrite E. exists (1 / l). split; [reflexivity|].
    assert (Hl : ~ l == 0).
    { intros H. apply Qeq_bool_iff in H. congruence. }
    intros H. apply Hl.
    assert (E1 : l == l * (1 / l) * l) by (field; exact Hl).
    rewrite E1, H. ring.
Qed.

Lemma square_nonneg (a : Q) : 0 <= a * a.
Proof.
  destruct (Qlt_le_dec a 0) as [H|H].
  - assert (E : a * a == (- a) * (- a)) by ring. rewrite E.
    apply Qmult_le_0_compat; lra.
  - apply Qmult_le_0_compat; exact H.
Qed.

Lemma squares_nonneg (a b c : Q) : 0 <= a * a + b * b + c * c.
Proof.
  pose proof (square_nonneg a). pose proof (square_nonneg b).
  pose proof (square_nonneg c). lra.
Qed.

Lemma scaled_zero (x k : Q) : ~ k == 0 -> (x * k == 0 <-> x == 0).
Proof.
  intros Hk. split.
  - intros H. destruct (Qmult_integral _ _ H) as [E|E]; [exact E|contradiction].
  - intros H. rewrite H. ring.
Qed.

(** C9, as the code has it.  [curlNoise] has no epsilon: it normalises the
    vector of differences with [Vector3.normalize], which divides by the
    length, or by 1 when the length is 0.  When the noise and the square
    root of a non-negative number are numbers, every component of the
    result is a number (no NaN comes out of the normalisation), and the
    result is the zero vector exactly when the vector of differences is
    zero, that is when the three central differences of the noise coincide;
    a vector of differences that is not zero, however short, is scaled and
    not replaced by zero. *)
Theorem curlNoise_zero_only_at_zero (ext : External) (p : Vector3) :
  (forall a b c : Q, is_num (noise3D ext (Num a) (Num b) (Num c))) ->
  (forall q : Q, 0 <= q -> is_num (Math_sqrt ext (Num q))) ->
  numeric_vector p ->
  numeric_vector (curlNoise ext p)
  /\ (is_zero (curlNoise ext p) <->
      nsame (differenceX ext p) (differenceY ext p)
      /\ nsame (differenceY ext p) (differenceZ ext p)).
Proof.
  intros Hn Hs (Hx & Hy & Hz).
  destruct p as [[x|] [y|] [z|]]; simpl in Hx, Hy, Hz; try contradiction.
  unfold curlNoise, differenceX, differenceY, differenceZ. cbv zeta.
  cbn [vx vy vz nadd nsub lift2].
  repeat match goal with
         | |- context [noise3D ext (Num ?a) (Num ?b) (Num ?c)] =>
             let H := fresh "H" in
             pose proof (Hn a b c) as H;
             destruct (noise3D ext (Num a) (Num b) (Num c)); [|destruct H]
         end.
  cbn [nsub lift2 nsame].
  unfold Vector3_normalize, Vector3_length. cbv zeta. cbn [vx vy vz nmul nadd lift2].
  match goal with
  | |- context [Math_sqrt ext (Num ?s)] =>
      assert (Hpos : 0 <= s) by apply squares_nonneg;
      destruct (normalize_factor ext s Hpos (Hs s Hpos)) as (k & -> & Hk)
  end.
  cbn [nmul lift2 vx vy vz]. unfold numeric_vector, is_zero. cbn [vx vy vz is_num nsame].
  split; [repeat split|].
  rewrite !(scaled_zero _ k Hk). split; intros Hzero; repeat split; lra.
Qed.

Lemma sqrt16_num (q : Q) : 0 <= q -> is_num (sqrt16 (Num q)).
Proof.
  intros Hq. unfold sqrt16.
  replace (Qle_bool 0 q) with true by (symmetry; apply Qle_bool_iff; exact Hq).
  exact I.
Qed.

Lemma curlNoise_zero_only_at_zero_witness :
  numeric_vector (curlNoise (extSlope (1 # 200000000)) origin)
  /\ (is_zero (curlNoise (extSlope (1 # 200000000)) origin) <->
      nsame (differenceX (extSlope (1 # 200000000)) origin)
            (differenceY (extSlope (1 # 200000000)) origin)
      /\ nsame (differenceY (extSlope (1 # 200000000)) origin)
               (differenceZ (extSlope (1 # 200000000)) origin)).
Proof.
  apply (curlNoise_zero_only_at_zero (extSlope (1 # 200000000)) origin).
  - intros a b c. exact I.
  - intros q Hq. apply sqrt16_num. exact Hq.
  - repeat split.
Defined.

(** C9 as stated fails for every epsilon: on a noise field that rises
    along y by 2.5 * eps per unit, the vector of differences at the origin
    is (eps/2, 0, -eps/2), shorter than eps, and [curlNoise] returns it
    divided by its length (or by 1), which is not the zero vector. *)
Lemma curlNoise_has_no_epsilon : ~ exists eps : Q, 0 < eps /\ epsilon_clamp eps.
Proof.
  intros (eps & Heps & H).
  specialize (H (extSlope (eps * (5 # 2))) origin).
  assert (Hzero : is_zero (curlNoise (extSlope (eps * (5 # 2))) origin)).
  { apply H.
    - intros a b c. exact I.
    - intros q Hq. apply sqrt16_num. exact Hq.
    - repeat split.
    - unfold rawSquaredLength, differenceX, differenceY, differenceZ, extSlope, origin.
      cbv zeta. cbn [noise3D vx vy vz nadd nsub nmul lift2 ngt]. nra. }
  revert Hzero. unfold curlNoise, extSlope, origin. cbv zeta.
  cbn [noise3D vx vy vz nadd nsub nmul lift2].
  unfold Vector3_normalize, Vector3_length. cbv zeta.
  cbn [vx vy vz nmul nadd lift2 Math_sqrt].
  match goal with
  | |- context [sqrt16 (Num ?s)] =>
      assert (Hpos : 0 <= s) by apply squares_nonneg;
      destruct (normalize_factor (extSlope 0) s Hpos (sqrt16_num s Hpos))
        as (k & Ek & Hk)
  end.
  cbn [Math_sqrt extSlope] in Ek. rewrite Ek.
  unfold is_zero. cbn [vx vy vz nmul lift2 nsame].
  rewrite !(scaled_zero _ k Hk). intros (Hx & _). lra.
Qed.
(** Where the noise is flat the turbulence vanishes instead of turning into
    NaN: if the noise is one and the same number everywhere and the square
    root of zero is zero, [curlNoise] returns the zero vector, because
    [normalize] divides by 1 when the length is 0. *)
Theorem curlNoise_flat (ext : External) (p : Vector3) (c : Q) :
  (forall x y z : num, noise3D ext x y z = Num c) ->
  (forall q : Q, q == 0 ->
                 exists r : Q, Math_sqrt ext (Num q) = Num r /\ r == 0) ->
  exists a b d : Q,
    curlNoise ext p = vec3 (Num a) (Num b) (Num d)
    /\ a == 0 /\ b == 0 /\ d == 0.
Proof.
  intros Hn Hs. unfold curlNoise. cbv zeta. rewrite !Hn. simpl.
  unfold Vector3_normalize, Vector3_length. cbv zeta. simpl.
  destruct (Hs ((c - c - (c - c)) * (c - c - (c - c))
                + (c - c - (c - c)) * (c - c - (c - c))
                + (c - c - (c - c)) * (c - c - (c - c))) ltac:(ring))
    as (r & -> & Hr).
  unfold or_default.
  replace (Qeq_bool r 0) with true
    by (symmetry; apply Qeq_bool_iff; exact Hr).
  unfold ndiv. change (Qeq_bool 1 0) with false. simpl.
  do 3 eexists. split; [reflexivity|]. repeat split; ring.
Qed.

Lemma curlNoise_flat_witness :
  exists a b d : Q,
    curlNoise ext0 (vec3 (Num 1) (Num 2) (Num 3)) = vec3 (Num a) (Num b) (Num d)
    /\ a == 0 /\ b == 0 /\ d == 0.
Proof.
  apply (curlNoise_flat ext0 (vec3 (Num 1) (Num 2) (Num 3)) 0).
  - intros x y z. reflexivity.
  - intros q _. exists 0. split; reflexivity.
Defined.

(** *** Morph controls *)

Lemma morphBlock1_controls (p : t) :
  (-1 <= morphDirection p <= 1)%Z ->
  (-1 <= morphDirection (morphBlock1 p) <= 1)%Z
  /\ morphPauseFrames (morphBlock1 p) = morphPauseFrames p
  /\ autoMorphOnBeat (morphBlock1 p) = autoMorphOnBeat p.
Proof.
  intros H. unfold morphBlock1. cbv zeta.
  repeat match goal with |- context [if ?c then _ else _] => destruct c end;
    simpl; repeat split; lia.
Qed.

Lemma autoMorph_controls (b : bool) (r : num) (p : t) :
  (-1 <= morphDirection p <= 1)%Z ->
  (-1 <= morphDirection (autoMorph b r p) <= 1)%Z
  /\ morphPauseFrames (autoMorph b r p) = morphPauseFrames p
  /\ autoMorphOnBeat (autoMorph b r p) = autoMorphOnBeat p.
Proof.
  intros H. unfold autoMorph, toggleMorph.
  repeat match goal with |- context [if ?c then _ else _] => destruct c end;
    simpl; repeat split; lia.
Qed.

Lemma beatToggle_controls (b : bool) (r : num) (p : t) :
  (-1 <= morphDirection p <= 1)%Z -> (0 <= morphPauseFrames p <= 60)%Z ->
  (-1 <= morphDirection (beatToggle b r p) <= 1)%Z
  /\ (0 <= morphPauseFrames (beatToggle b r p) <= 60)%Z.
Proof.
  intros Hd Hp. unfold beatToggle. cbv zeta.
  destruct (autoMorphOnBeat p && b && (morphPauseFrames p <=? 0)%Z);
    [destruct (r >? Num (7 # 10))%num|];
    cbn [morphPauseFrames morphDirection set_morphPauseFrames set_morphDirection];
    try (change (60 >? 0)%Z with true; cbv iota);
    try (destruct (morphPauseFrames p >? 0)%Z eqn:E;
         [apply Z.gtb_lt in E|]);
    cbn [morphPauseFrames morphDirection set_morphPauseFrames set_morphDirection];
    split; lia.
Qed.

(** The morph direction of src/ParticleSystem.js only takes the values -1,
    0 and +1 and the pause counter stays between 0 and 60: a frame and a
    toggle keep both ranges. *)
Theorem plexus_controls_invariant (ext : External) (ad : AudioData) (env : Env) (p : t) :
  (-1 <= morphDirection p <= 1)%Z ->
  (0 <= morphPauseFrames p <= 60)%Z ->
  ((-1 <= morphDirection (update ext ad env p) <= 1)%Z
   /\ (0 <= morphPauseFrames (update ext ad env p) <= 60)%Z)
  /\ ((-1 <= morphDirection (toggleMorph p) <= 1)%Z
      /\ (0 <= morphPauseFrames (toggleMorph p) <= 60)%Z).
Proof.
  intros Hd Hp. split; [|unfold toggleMorph; simpl; lia].
  pose proof (update_morphState ext ad env p) as H.
  apply morphState_eq in H.
  destruct H as (_ & _ & _ & _ & _ & _ & -> & ->).
  unfold updateControls. cbv zeta.
  set (p1 := set_uniforms _ _ p).
  destruct (morphBlock1_controls p1 Hd) as (D1 & P1 & _).
  destruct (autoMorph_controls (ad_isBeat ad) (random438 env) _ D1) as (D2 & P2 & _).
  match goal with
  | |- context [beatToggle ?b ?r ?q] =>
      destruct (beatToggle_controls b r q) as (D3 & P3)
  end.
  - exact D2.
  - cbn [morphPauseFrames set_uniforms]. rewrite P2, P1. exact Hp.
  - unfold morphFactorUpdate.
    match goal with |- context [match ?o with Some _ => _ | None => _ end] =>
      destruct o end; simpl; split; assumption.
Qed.

Lemma plexus_controls_invariant_witness :
  ((-1 <= morphDirection (update ext0 quietData env0 loaded) <= 1)%Z
   /\ (0 <= morphPauseFrames (update ext0 quietData env0 loaded) <= 60)%Z)
  /\ ((-1 <= morphDirection (toggleMorph loaded) <= 1)%Z
      /\ (0 <= morphPauseFrames (toggleMorph loaded) <= 60)%Z).
Proof.
  apply (plexus_controls_invariant ext0 quietData env0 loaded).
  - simpl. lia.
  - simpl. lia.
Defined.

(** *** A particle under the mouse *)

Lemma nadd_NaN_r (x : num) : (x + NaN)%num = NaN.
Proof. destruct x; reflexivity. Qed.

Lemma nmul_NaN_r (x : num) : (x * NaN)%num = NaN.
Proof. destruct x; reflexivity. Qed.

Lemma updateControls_placement (ad : AudioData) (env : Env) (p : t) :
  placement (updateControls ad env p) = placement p
  /\ positions (updateControls ad env p) = positions p.
Proof.
  unfold updateControls, morphFactorUpdate, beatToggle, autoMorph, toggleMorph,
    morphBlock1. cbv zeta.
  repeat match goal with
         | |- context [if ?c then _ else _] => destruct c
         | |- context [match ?o with Some _ => _ | None => _ end] => destruct o
         end; split; reflexivity.
Qed.

(** A turn of the loop stores into the three entries of its particle. *)
Lemma particleStep_positions (ext : External) (time treble : num)
    (rnd : nat -> num) (p : t) (i : nat) :
  placement (particleStep ext time treble rnd p i) = placement p
  /\ exists v0 v1 v2 : num,
       positions (particleStep ext time treble rnd p i)
       = write (write (write (positions p) (i * 3) v0) (i * 3 + 1) v1)
               (i * 3 + 2) v2.
Proof.
  unfold particleStep. cbv zeta.
  match goal with |- context [if ?c then _ else _] => destruct c end;
    (split; [reflexivity|]); do 3 eexists; reflexivity.
Qed.

Lemma loop_positions_other (ext : External) (time treble : num)
    (rnd : nat -> num) (k : nat) (l : list nat) :
  Forall (fun j => (k < j * 3 \/ j * 3 + 2 < k)%nat) l ->
  forall p : t,
    placement (fold_left (particleStep ext time treble rnd) l p) = placement p
    /\ positions (fold_left (particleStep ext time treble rnd) l p) !! k
       = positions p !! k.
Proof.
  intros Hl. induction Hl as [|j l Hj Hl IH]; intros p; simpl.
  - split; reflexivity.
  - destruct (IH (particleStep ext time treble rnd p j)) as [-> ->].
    destruct (particleStep_positions ext time treble rnd p j)
      as [-> (v0 & v1 & v2 & ->)].
    split; [reflexivity|]. unfold write.
    rewrite !list_lookup_insert_ne by lia. reflexivity.
Qed.

Lemma particleStep_at_mouse (ext : External) (time treble : num)
    (rnd : nat -> num) (p : t) (i : nat) (mx my : Q) :
  (forall q : Q, q == 0 ->
                 exists r : Q, Math_sqrt ext (Num q) = Num r /\ r == 0) ->
  mouse_x p = Num mx -> mouse_y p = Num my ->
  positions p !! (i * 3)%nat = Some (Num mx) ->
  positions p !! (i * 3 + 1)%nat = Some (Num my) ->
  positions (particleStep ext time treble rnd p i) !! (i * 3)%nat = Some NaN.
Proof.
  intros Hs Hmx Hmy Hx Hy. unfold particleStep. cbv zeta.
  rewrite Hmx, Hmy.
  assert (Rx : read (positions p) (i * 3) = Num mx) by (unfold read; rewrite Hx; reflexivity).
  assert (Ry : read (positions p) (i * 3 + 1) = Num my) by (unfold read; rewrite Hy; reflexivity).
  rewrite !Rx, !Ry. cbn [nsub nmul nadd lift2].
  set (q := (mx - mx) * (mx - mx) + (my - my) * (my - my)).
  assert (Hq : q == 0) by (unfold q; ring).
  replace (Num q <? Num 16)%num with true.
  2:{ symmetry. unfold nltb, ngtb. apply Qltb_lt. rewrite Hq. reflexivity. }
  destruct (Hs q Hq) as (r & -> & Hr).
  unfold ndiv at 1.
  replace (Qeq_bool r 0) with true by (symmetry; apply Qeq_bool_iff; exact Hr).
  cbn [nmul lift2 set_positions positions].
  unfold write. rewrite !list_lookup_insert_ne by lia.
  rewrite list_lookup_insert_eq by (apply lookup_lt_Some in Hx; exact Hx).
  f_equal. unfold lerp. rewrite nadd_NaN_r, nmul_NaN_r, nadd_NaN_r. reflexivity.
Qed.

Lemma seq_split (i n : nat) :
  (i < n)%nat -> seq 0 n = seq 0 i ++ [i] ++ seq (S i) (n - S i).
Proof.
  intros H. replace n with (i + S (n - S i))%nat at 1 by lia.
  rewrite seq_app. reflexivity.
Qed.

(** A particle exactly under the mouse is lost: when the x and y of a
    particle equal those of the mouse, the repulsion divides 0 by the
    distance 0, and the frame stores NaN as the particle's x. *)
Theorem particle_under_mouse_NaN (ext : External) (ad : AudioData) (env : Env)
    (p : t) (i : nat) (mx my : Q) :
  (forall q : Q, q == 0 ->
                 exists r : Q, Math_sqrt ext (Num q) = Num r /\ r == 0) ->
  (i < params_count p)%nat ->
  mouse_x p = Num mx -> mouse_y p = Num my ->
  positions p !! (i * 3)%nat = Some (Num mx) ->
  positions p !! (i * 3 + 1)%nat = Some (Num my) ->
  positions (update ext ad env p) !! (i * 3)%nat = Some NaN.
Proof.
  intros Hs Hi Hmx Hmy Hx Hy. unfold update. cbv zeta.
  destruct (updateControls_placement ad env p) as [Hpl Hpos].
  set (p0 := updateControls ad env p) in *.
  assert (Hn : params_count p0 = params_count p)
    by (unfold placement in Hpl; congruence).
  rewrite Hn.
  rewrite (seq_split i (params_count p) Hi).
  rewrite !fold_left_app.
  set (t0 := (performance_now env * Num (1 # 1000))%num).
  set (tr := or_default (ad_treble ad) (Num 0)).
  set (pa := fold_left (particleStep ext t0 tr (randomLoop env)) (seq 0 i) p0).
  assert (Hbefore : Forall (fun j => (i * 3 < j * 3 \/ j * 3 + 2 < i * 3)%nat) (seq 0 i)).
  { apply Forall_forall. intros j Hj. apply in_seq in Hj. lia. }
  assert (Hbefore1 : Forall (fun j => (i * 3 + 1 < j * 3 \/ j * 3 + 2 < i * 3 + 1)%nat) (seq 0 i)).
  { apply Forall_forall. intros j Hj. apply in_seq in Hj. lia. }
  destruct (loop_positions_other ext t0 tr (randomLoop env) _ _ Hbefore p0)
    as [Hpla Hxa].
  destruct (loop_positions_other ext t0 tr (randomLoop env) _ _ Hbefore1 p0)
    as [_ Hya].
  fold pa in Hpla, Hxa, Hya.
  assert (Hafter : Forall (fun j => (i * 3 < j * 3 \/ j * 3 + 2 < i * 3)%nat)
                     (seq (S i) (params_count p - S i))).
  { apply Forall_forall. intros j Hj. apply in_seq in Hj. lia. }
  simpl fold_left at 2.
  destruct (loop_positions_other ext t0 tr (randomLoop env) _ _ Hafter
              (particleStep ext t0 tr (randomLoop env) pa i)) as [_ ->].
  apply (particleStep_at_mouse ext t0 tr (randomLoop env) pa i mx my Hs).
  - unfold placement in Hpla, Hpl. congruence.
  - unfold placement in Hpla, Hpl. congruence.
  - rewrite Hxa, Hpos. exact Hx.
  - rewrite Hya, Hpos. exact Hy.
Qed.

Lemma particle_under_mouse_NaN_witness :
  positions (update ext0 quietData env0 underMouse) !! 0%nat = Some NaN.
Proof.
  apply (particle_under_mouse_NaN ext0 quietData env0 underMouse 0 1 1).
  - intros q _. exists 0. split; reflexivity.
  - simpl. lia.
  - reflexivity.
  - reflexivity.
  - reflexivity.
  - reflexivity.
Defined.

End ParticleSystemMore.

(* ===================================================================== *)
(** * The first ParticleSystem: particles stay in the ball *)
(* ===================================================================== *)

Section ParticleSystemV1Facts.

Import ParticleSystemV1.

Lemma read_write_same (l : list num) (i : nat) (v : num) :
  (i < length l)%nat -> read (write l i v) i = v.
Proof.
  intros H. unfold read, write. rewrite list_lookup_insert_eq by exact H.
  reflexivity.
Qed.


Lemma length_write (l : list num) (i : nat) (v : num) :
  length (write l i v) = length l.
Proof. apply length_insert. Qed.









End ParticleSystemV1Facts.

(* ===================================================================== *)
(** * Two more frame facts *)
(* ===================================================================== *)

Section MoreFrames.

(** Below the static threshold nothing is a beat: a frame whose raw bass
    energy does not exceed [beatThreshold] (0.45 from the constructor)
    leaves the beat flag false, whatever the history, the tracker and the
    clock. *)
Theorem quiet_frame_never_beats (a : AudioAnalyzer.t) (freq : list byte)
    (now e : Q) :
  rawBass freq a = Num e ->
  e <= AudioAnalyzer.beatThreshold a ->
  AudioAnalyzer.isBeat (AudioAnalyzer.update freq now a) = false.
Proof.
  intros He Hle.
  destruct (AudioAnalyzer.analyser a && AudioAnalyzer.isPlaying a) eqn:R.
  - apply andb_true_iff in R. destruct R as [Ha Hp].
    rewrite (update_analysing _ _ _ Ha Hp), _detectBeat_isBeat.
    unfold beatTest. fold (rawBass freq a). rewrite He.
    cbn [AudioAnalyzer.beatThreshold AudioAnalyzer.set_bands
         AudioAnalyzer.set_dataArray].
    unfold AudioAnalyzer.adaptiveThreshold.
    destruct (AudioAnalyzer.average _ * Num (14 # 10))%num as [t|];
      [|reflexivity].
    simpl. replace (Qltb (Qmax (AudioAnalyzer.beatThreshold a) t) e) with false;
      [reflexivity|].
    symmetry. unfold Qltb. apply negb_false_iff. apply Qle_bool_iff.
    eapply Qle_trans; [exact Hle | apply Q.le_max_l].
  - rewrite (update_idle _ _ _ R). reflexivity.
Qed.

Lemma quiet_frame_never_beats_witness :
  AudioAnalyzer.isBeat
    (AudioAnalyzer.update silence 1000
       (AudioAnalyzer.play (AudioAnalyzer.loadAudio AudioAnalyzer.constructor)))
  = false.
Proof.
  apply (quiet_frame_never_beats
           (AudioAnalyzer.play (AudioAnalyzer.loadAudio AudioAnalyzer.constructor))
           silence 1000 (0 / 7 / 255)).
  - vm_compute. reflexivity.
  - vm_compute. discriminate.
Defined.

Lemma plexus_particleStep_frame (ext : ParticleSystem.External)
    (time treble : num) (rnd : nat -> num) (p : ParticleSystem.t) (i : nat) :
  ParticleSystem.scatterPositions (ParticleSystem.particleStep ext time treble rnd p i)
  = ParticleSystem.scatterPositions p
  /\ length (ParticleSystem.positions (ParticleSystem.particleStep ext time treble rnd p i))
     = length (ParticleSystem.positions p).
Proof.
  destruct (particleStep_positions ext time treble rnd p i)
    as [_ (v0 & v1 & v2 & ->)].
  split.
  - unfold ParticleSystem.particleStep. cbv zeta.
    match goal with |- context [if ?c then _ else _] => destruct c end;
      reflexivity.
  - unfold write. rewrite !length_insert. reflexivity.
Qed.

(** In src/ParticleSystem.js a frame stores into the position buffer only:
    the scatter positions and the model positions are as before, and the
    position buffer keeps its length. *)
Theorem plexus_update_frame (ext : ParticleSystem.External)
    (ad : ParticleSystem.AudioData) (env : ParticleSystem.Env)
    (p : ParticleSystem.t) :
  ParticleSystem.scatterPositions (ParticleSystem.update ext ad env p)
  = ParticleSystem.scatterPositions p
  /\ ParticleSystem.modelPositions (ParticleSystem.update ext ad env p)
     = ParticleSystem.modelPositions p
  /\ length (ParticleSystem.positions (ParticleSystem.update ext ad env p))
     = length (ParticleSystem.positions p).
Proof.
  assert (Hc : ParticleSystem.scatterPositions (ParticleSystem.updateControls ad env p)
               = ParticleSystem.scatterPositions p
               /\ ParticleSystem.modelPositions (ParticleSystem.updateControls ad env p)
                  = ParticleSystem.modelPositions p).
  { unfold ParticleSystem.updateControls, ParticleSystem.morphFactorUpdate,
      ParticleSystem.beatToggle, ParticleSystem.autoMorph,
      ParticleSystem.toggleMorph, ParticleSystem.morphBlock1. cbv zeta.
    repeat match goal with
           | |- context [if ?c then _ else _] => destruct c
           | |- context [match ?o with Some _ => _ | None => _ end] =>
               destruct o eqn:?
           end; simpl in *; split; congruence. }
  destruct Hc as [Hs Hm].
  destruct (updateControls_placement ad env p) as [_ Hpos].
  pose proof (update_morphState ext ad env p) as M.
  apply morphState_eq in M. destruct M as (_ & _ & M & _).
  split; [|split; [rewrite M; exact Hm|]].
  - unfold ParticleSystem.update. cbv zeta. rewrite <- Hs.
    generalize (ParticleSystem.updateControls ad env p) at 2 3.
    generalize (seq 0 (ParticleSystem.params_count (ParticleSystem.updateControls ad env p))).
    intros l. induction l as [|i l IH]; intros q; simpl; [reflexivity|].
    rewrite IH. apply plexus_particleStep_frame.
  - unfold ParticleSystem.update. cbv zeta. rewrite <- Hpos.
    generalize (ParticleSystem.updateControls ad env p) at 2 3.
    generalize (seq 0 (ParticleSystem.params_count (ParticleSystem.updateControls ad env p))).
    intros l. induction l as [|i l IH]; intros q; simpl; [reflexivity|].
    rewrite IH. apply plexus_particleStep_frame.
Qed.

End MoreFrames.
